(** * pwm-fan-control: the fan curve, the duty table and the control loop

    A shallow embedding of [usr/local/bin/pwm-fan-control.py] and of its
    sibling [usr/local/sbin/pwm-fan-control.py].  The two files share the
    class [PWMFanControl] line for line except for the way the temperature
    readings are collected; the selection of the maximum reading, the duty
    table and the loop [monitor] are identical.

    Python integers are unbounded and are modelled by [Z].  Exceptions that
    leave a function are modelled by the [result] type. *)

From Stdlib Require Import String Ascii ZArith List Lia Bool Permutation.
Import ListNotations.

Local Open Scope Z_scope.

(** ** Exceptions *)

Inductive exn : Type :=
| IndexError
| OverflowError
| ZeroDivisionError
| SystemExit (code : Z).

Inductive result (A : Type) : Type :=
| Ok (a : A)
| Raise (e : exn).

Arguments Ok {A} a.
Arguments Raise {A} e.

Definition bind {A B : Type} (m : result A) (k : A -> result B) : result B :=
  match m with
  | Ok a => k a
  | Raise e => Raise e
  end.

Notation "x <- m ;; k" := (bind m (fun x => k))
  (at level 61, m at next level, right associativity).

(** [l[i]] for an index produced by [range]: never negative. *)
Definition getitem {A : Type} (l : list A) (i : nat) : result A :=
  match nth_error l i with
  | Some a => Ok a
  | None => Raise IndexError
  end.

(** [[f(x) for x in l]] where [f] may raise: the first exception wins. *)
Fixpoint traverse {A B : Type} (f : A -> result B) (l : list A)
  : result (list B) :=
  match l with
  | [] => Ok []
  | x :: l' => y <- f x ;; ys <- traverse f l' ;; Ok (y :: ys)
  end.

(** ** Python floats

    [a / b] on two [int]s is true division: the result is the IEEE-754
    binary64 number nearest to the exact quotient (ties to even), and
    [OverflowError] when that number is not finite.  A finite binary64 is
    [mant * 2 ^ expo] with [|mant| <= 2 ^ 53] and [expo >= -1074]. *)

Module Float.

Record float : Type := mk { mant : Z; expo : Z }.

Definition prec : Z := 53.
Definition emin : Z := -1074.
Definition emax : Z := 1024.

(** [n / (d * 2 ^ e)] as a floor quotient with its remainder and divisor. *)
Definition scaled (n d e : Z) : Z * Z * Z :=
  if 0 <=? e
  then (n / (d * 2 ^ e), n mod (d * 2 ^ e), d * 2 ^ e)
  else ((n * 2 ^ (- e)) / d, (n * 2 ^ (- e)) mod d, d).

(** Round the quotient [q + r / den] to the nearest integer, ties to even. *)
Definition round_half_even (q r den : Z) : Z :=
  if 2 * r <? den then q
  else if den <? 2 * r then q + 1
  else if Z.even q then q else q + 1.

(** The exponent of the binade of [n / d], for [n, d > 0]. *)
Definition exponent (n d : Z) : Z :=
  let e0 := Z.log2 n - Z.log2 d - (prec - 1) in
  let '(q0, _, _) := scaled n d e0 in
  let e := if q0 <? 2 ^ (prec - 1) then e0 - 1 else e0 in
  Z.max e emin.

(** [n / d] for [n, d > 0]: mantissa and exponent of the nearest binary64. *)
Definition nearest (n d : Z) : Z * Z :=
  let e := exponent n d in
  let '(q, r, den) := scaled n d e in
  (round_half_even q r den, e).

(** [a / b] for two Python [int]s. *)
Definition int_truediv (a b : Z) : result float :=
  if b =? 0 then Raise ZeroDivisionError
  else if a =? 0 then Ok (mk 0 0)
  else
    let '(m, e) := nearest (Z.abs a) (Z.abs b) in
    if 2 ^ emax <=? (if 0 <=? e then m * 2 ^ e else m / 2 ^ (- e))
    then Raise OverflowError
    else Ok (mk (Z.sgn a * Z.sgn b * m) e).

(** [float(a)] for a Python [int], as in [a / 1e9]: the nearest binary64. *)
Definition of_int (a : Z) : result float := int_truediv a 1.

(** [int(x)] for a finite float [x]: truncation towards zero. *)
Definition to_int (x : float) : Z :=
  if 0 <=? expo x then mant x * 2 ^ expo x
  else Z.quot (mant x) (2 ^ (- expo x)).

End Float.

(** ** Configuration *)

(** One item of [fan_speed]: a dict with the keys [cpu], [disk], [speed]. *)
Record FanStep : Type := mkFanStep { cpu : Z; disk : Z; speed : Z }.

Record Config : Type := mkConfig {
  check_interval : Z;
  pwm_period : Z;
  fan_speed : list FanStep;
  disk_devices : list string
}.

(** The built-in defaults, used when there is no configuration file. *)
Definition default_config : Config := mkConfig 5 40000 [] [].

(** ** The derived tables *)

(** [int(self._config.pwm_period * item["speed"] / 100)] *)
Definition duty_cycle_of (pwm_period speed : Z) : result Z :=
  x <- Float.int_truediv (pwm_period * speed) 100 ;;
  Ok (Float.to_int x).

Definition _duty_cycles (config : Config) : result (list Z) :=
  traverse (fun item => duty_cycle_of (pwm_period config) (speed item))
           (fan_speed config).

Definition _cpu_temperatures (config : Config) : list Z :=
  map cpu (fan_speed config).

Definition _disk_temperatures (config : Config) : list Z :=
  map disk (fan_speed config).

(** ** Temperature providers

    Both properties collect the readings of their sources in a list and end
    with the same three lines:

      if temperatures:
          return temperatures[0] if len(temperatures) == 1 else max( *temperatures )
      return 0
*)

(** [max] of two or more arguments [a, b, rest...]: the running maximum
    is replaced by a later argument only when that argument is strictly
    greater. *)
Definition py_max (a b : Z) (rest : list Z) : Z :=
  fold_left (fun m x => if x >? m then x else m) (b :: rest) a.

Definition max_reading (temperatures : list Z) : Z :=
  match temperatures with
  | [] => 0
  | [t] => t
  | a :: b :: rest => py_max a b rest
  end.

(** A source that cannot be parsed ends the process: [sys.exit(1)]. *)
Definition or_exit {A : Type} (x : option A) : result A :=
  match x with
  | Some a => Ok a
  | None => Raise (SystemExit 1)
  end.

(** [usr/local/bin]: thermal-zone files and [hddtemp]. *)
Module Bin.

(** A thermal-zone file is given by the integer it holds, [None] when
    [int(f.read())] raises [ValueError]; the reading is
    [int(int(f.read()) / 1000)]. *)
Definition zone_reading (zone : option Z) : result Z :=
  raw <- or_exit zone ;;
  x <- Float.int_truediv raw 1000 ;;
  Ok (Float.to_int x).

Definition _cpu_temperature (thermal_zones : list (option Z)) : result Z :=
  cpu_temperatures <- traverse zone_reading thermal_zones ;;
  Ok (max_reading cpu_temperatures).

(** [hddtemp device] is the number printed by the command for [device],
    [None] when the output is not a number or the command is missing. *)
Definition _disk_temperature (hddtemp : string -> option Z) (config : Config)
  : result Z :=
  disk_temperatures <-
    traverse (fun device => or_exit (hddtemp device)) (disk_devices config) ;;
  Ok (max_reading disk_temperatures).

End Bin.

(** [usr/local/sbin]: [sensors] and [smartctl]. *)
Module Sbin.

Definition chips : list string :=
  ["cpu_thermal-virtual-0"; "gpu_thermal-virtual-0"]%string.

(** [sensors chip] is the list of the rounded, non-zero [tempN_input]
    values of the chip's report, [None] when the report lacks the chip or
    the command is missing. *)
Definition _cpu_temperature (sensors : string -> option (list Z))
  : result Z :=
  per_chip <- traverse (fun chip => or_exit (sensors chip)) chips ;;
  Ok (max_reading (concat per_chip)).

(** [smartctl device] is the field [temperature.current] of the report,
    [None] when the field or the command is missing. *)
Definition _disk_temperature (smartctl : string -> option Z) (config : Config)
  : result Z :=
  disk_temperatures <-
    traverse (fun device => or_exit (smartctl device)) (disk_devices config) ;;
  Ok (max_reading disk_temperatures).

End Sbin.

(** ** The fan curve: the body of the loop in [monitor]

    The three tables are properties, recomputed from the configuration on
    every access; so is the duty cycle, which is read from sysfs and which
    nothing writes before the end of the iteration.  The two temperature
    properties query the sensors on every access: [cpu_temperature index]
    and [disk_temperature index] are the readings obtained while the scan
    is at [index].  Of the call of [logger.debug] only the evaluation of
    its arguments is kept: [debug duty] raises what they raise. *)

Section FanCurve.

Variables cpu_temperature disk_temperature : nat -> Z.
Variable pwmchip_duty_cycle : Z.
Variables duty_cycles cpu_temperatures disk_temperatures : list Z.
Variable debug : Z -> result unit.

(** The condition of the [if], evaluated from left to right. *)
Definition step_matches (index : nat) : result bool :=
  d <- getitem duty_cycles index ;;
  let hysteresis := if pwmchip_duty_cycle >=? d then 2 else 0 in
  c <- getitem cpu_temperatures index ;;
  if cpu_temperature index >? c - hysteresis then Ok true
  else
    k <- getitem disk_temperatures index ;;
    Ok (disk_temperature index >? k - hysteresis).

(** [for index in indices: ...] with [duty] initially [0]. *)
Fixpoint scan (indices : list nat) : result Z :=
  match indices with
  | [] => Ok 0
  | index :: rest =>
      m <- step_matches index ;;
      if m then
        duty <- (if pwmchip_duty_cycle =? 0
                 then getitem duty_cycles 0%nat
                 else getitem duty_cycles index) ;;
        _ <- debug duty ;;
        Ok duty
      else scan rest
  end.

(** The first index at which the condition holds, if there is one. *)
Fixpoint scan_index (indices : list nat) : result (option nat) :=
  match indices with
  | [] => Ok None
  | index :: rest =>
      m <- step_matches index ;;
      if m then Ok (Some index) else scan_index rest
  end.

(** The value of [duty] after the [for] loop. *)
Definition monitor_duty : result Z :=
  scan (seq 0 (length duty_cycles)).

Definition monitor_index : result (option nat) :=
  scan_index (seq 0 (length duty_cycles)).

End FanCurve.

(** A call of [logger.debug] whose arguments raise nothing. *)
Definition silent (duty : Z) : result unit := Ok tt.

(** The decision as a function of one reading per sensor. *)
Definition decide (cpu_temp disk_temp previous_duty : Z)
  (steps : list FanStep) (duty_table : list Z) : result Z :=
  monitor_duty (fun _ => cpu_temp) (fun _ => disk_temp) previous_duty
    duty_table (map cpu steps) (map disk steps) silent.

Definition selected (cpu_temp disk_temp previous_duty : Z)
  (steps : list FanStep) (duty_table : list Z) : result (option nat) :=
  monitor_index (fun _ => cpu_temp) (fun _ => disk_temp) previous_duty
    duty_table (map cpu steps) (map disk steps).

(** ** The PWM channel and the loop *)

Inductive Polarity : Type := normal | inversed.

(** The attributes of [/sys/class/pwm/pwmchip1/pwm0]. *)
Record PwmState : Type := mkPwm {
  duty_cycle : Z;
  period : Z;
  enable : bool;
  polarity : Polarity
}.

(** The channel together with the values written to [duty_cycle] so far,
    the latest first. *)
Record World : Type := mkWorld {
  pwm : PwmState;
  duty_cycle_writes : list Z
}.

(** The getter: [int(f.read())] of the attribute. *)
Definition get_pwmchip_duty_cycle (w : World) : Z := duty_cycle (pwm w).

(** The setter: one write of the value to the attribute. *)
Definition set_pwmchip_duty_cycle (value : Z) (w : World) : World :=
  mkWorld
    (mkPwm value (period (pwm w)) (enable (pwm w)) (polarity (pwm w)))
    (value :: duty_cycle_writes w).

(** What the sensors answer during one iteration. *)
Record Readings : Type := mkReadings {
  cpu_at : nat -> Z;
  disk_at : nat -> Z
}.

Definition steady (cpu_temp disk_temp : Z) : Readings :=
  mkReadings (fun _ => cpu_temp) (fun _ => disk_temp).

(** The arguments of [logger.debug] that can raise:
    [duty * 100 / self._config.pwm_period] and
    [round((self._pwmchip_period / 1e9) ** -1 / 1000)], where a zero base
    of the negative power raises [ZeroDivisionError]. *)
Definition debug_arguments (config : Config) (w : World) (duty : Z)
  : result unit :=
  _ <- Float.int_truediv (duty * 100) (pwm_period config) ;;
  x <- Float.of_int (period (pwm w)) ;;
  if Float.mant x =? 0 then Raise ZeroDivisionError else Ok tt.

(** One pass through the body of [while True]. *)
Definition monitor_iteration (config : Config) (r : Readings) (w : World)
  : result World :=
  duty_cycles <- _duty_cycles config ;;
  duty <- monitor_duty (cpu_at r) (disk_at r) (get_pwmchip_duty_cycle w)
            duty_cycles (_cpu_temperatures config) (_disk_temperatures config)
            (debug_arguments config w) ;;
  Ok (set_pwmchip_duty_cycle duty w).

(** The loop, along the readings of finitely many iterations. *)
Fixpoint monitor (config : Config) (trace : list Readings) (w : World)
  : result World :=
  match trace with
  | [] => Ok w
  | r :: trace' =>
      w' <- monitor_iteration config r w ;;
      monitor config trace' w'
  end.

(** The value given to [duty] when the condition first holds at [index],
    and the initial [0] when it holds nowhere. *)
Definition duty_of_index (pwmchip_duty_cycle : Z) (duty_cycles : list Z)
  (index : option nat) : result Z :=
  match index with
  | None => Ok 0
  | Some i =>
      if pwmchip_duty_cycle =? 0
      then getitem duty_cycles 0%nat
      else getitem duty_cycles i
  end.

Definition result_map {A B : Type} (f : A -> B) (m : result A) : result B :=
  x <- m ;; Ok (f x).

(** ** Start-up: [__init__]

    The configuration is taken as loaded.  [_pwmchip_export] catches the
    [OSError] of an export that is refused and touches no attribute, so it
    leaves no trace here. *)

(** What the constructor finds outside the process: the output of [lsmod]
    filtered by [grep pwm_fan], [None] when one of the two commands is
    missing ([lsmod] itself is taken to succeed when it is there), and what
    [is_file] answers for [duty_cycle], [period] and [enable] at the end. *)
Record Host : Type := mkHost {
  lsmod_grep : option string;
  control_files : bool
}.

Definition _check_pwm_fan_kernel_module (host : Host) : result unit :=
  match lsmod_grep host with
  | None => Raise (SystemExit 1)
  | Some EmptyString => Ok tt
  | Some _ => Raise (SystemExit 1)
  end.

Definition set_pwmchip_period (value : Z) (w : World) : World :=
  mkWorld
    (mkPwm (duty_cycle (pwm w)) value (enable (pwm w)) (polarity (pwm w)))
    (duty_cycle_writes w).

Definition set_pwmchip_enable (value : bool) (w : World) : World :=
  mkWorld
    (mkPwm (duty_cycle (pwm w)) (period (pwm w)) value (polarity (pwm w)))
    (duty_cycle_writes w).

Definition set_pwmchip_polarity (value : Polarity) (w : World) : World :=
  mkWorld
    (mkPwm (duty_cycle (pwm w)) (period (pwm w)) (enable (pwm w)) value)
    (duty_cycle_writes w).

Definition init (config : Config) (host : Host) (w : World) : result World :=
  _ <- _check_pwm_fan_kernel_module host ;;
  let w := set_pwmchip_period (pwm_period config) w in
  duty_cycles <- _duty_cycles config ;;
  duty <- getitem duty_cycles 0%nat ;;
  let w := set_pwmchip_duty_cycle duty w in
  let w := set_pwmchip_enable false w in
  let w := set_pwmchip_polarity normal w in
  let w := set_pwmchip_enable true w in
  if control_files host then Ok w else Raise (SystemExit 1).

(** A host without the [pwm_fan] module and with the control files. *)
Definition clean_host : Host := mkHost (Some EmptyString) true.

(** ** The attributes as text

    Each getter opens its file and reads all of it, each setter opens its
    file for writing and writes one line; the files are taken to exist and
    to give back what was written last.  [int] and [str] are those of
    Python on ASCII text. *)

Module Sysfs.

(** The characters that [int] skips around a number. *)
Definition is_space (c : ascii) : bool :=
  let n := nat_of_ascii c in
  ((9 <=? n) && (n <=? 13))%nat || (n =? 32)%nat.

Definition digit_of (c : ascii) : option Z :=
  let n := nat_of_ascii c in
  if ((48 <=? n) && (n <=? 57))%nat then Some (Z.of_nat n - 48) else None.

Fixpoint lstrip (s : string) : string :=
  match s with
  | String c s' => if is_space c then lstrip s' else s
  | EmptyString => EmptyString
  end.

Fixpoint all_space (s : string) : bool :=
  match s with
  | String c s' => is_space c && all_space s'
  | EmptyString => true
  end.

(** Digits with single underscores between them, then spaces up to the
    end: the value and the number of digits. *)
Fixpoint parse_digits (s : string) (acc : Z) (count : nat)
  (after_digit : bool) : option (Z * nat) :=
  match s with
  | EmptyString => if after_digit then Some (acc, count) else None
  | String c s' =>
      match digit_of c with
      | Some d => parse_digits s' (10 * acc + d) (S count) true
      | None =>
          if after_digit then
            if (c =? "_")%char then parse_digits s' acc count false
            else if is_space c && all_space s' then Some (acc, count)
            else None
          else None
      end
  end.

Definition digit_char (d : Z) : ascii := ascii_of_nat (48 + Z.to_nat d).

(** The decimal digits of [n], most significant first, before [tail]. *)
Fixpoint decimal (fuel : nat) (n : Z) (tail : string) : string :=
  match fuel with
  | O => tail
  | S fuel' =>
      let tail' := String (digit_char (n mod 10)) tail in
      if n <? 10 then tail' else decimal fuel' (n / 10) tail'
  end.

Definition digits_of (n : Z) : string :=
  decimal (S (Z.to_nat (Z.log2 n))) n EmptyString.

Section Conversions.

(** [sys.get_int_max_str_digits()]: 0 when conversions are unlimited. *)
Variable max_str_digits : nat.

Definition too_long (count : nat) : bool :=
  (0 <? max_str_digits)%nat && (max_str_digits <? count)%nat.

(** [int(s)], [None] standing for [ValueError]. *)
Definition py_int (s : string) : option Z :=
  let '(negative, body) :=
    match lstrip s with
    | String "+" s' => (false, s')
    | String "-" s' => (true, s')
    | s' => (false, s')
    end in
  match parse_digits body 0 0 false with
  | Some (n, count) =>
      if too_long count then None else Some (if negative then - n else n)
  | None => None
  end.

(** [str(z)], [None] standing for [ValueError]. *)
Definition py_str (z : Z) : option string :=
  let digits := digits_of (Z.abs z) in
  if too_long (String.length digits) then None
  else Some (if z <? 0 then String "-" digits else digits).

Record Files : Type := mkFiles {
  duty_cycle_file : string;
  period_file : string;
  polarity_file : string;
  enable_file : string
}.

Definition newline : string := String (ascii_of_nat 10) EmptyString.

(** [f"{value}\n"] *)
Definition line_of_int (value : Z) : option string :=
  option_map (fun s => (s ++ newline)%string) (py_str value).

(** The getters: a text that is no integer ends the process. *)
Definition _pwmchip_duty_cycle (f : Files) : result Z :=
  or_exit (py_int (duty_cycle_file f)).

Definition _pwmchip_period (f : Files) : result Z :=
  or_exit (py_int (period_file f)).

Definition _pwmchip_enable (f : Files) : result bool :=
  _value <- or_exit (py_int (enable_file f)) ;;
  Ok (_value =? 1).



(** The setters; [None] when formatting the value raises [ValueError]. *)
Definition set_pwmchip_duty_cycle (value : Z) (f : Files) : option Files :=
  option_map
    (fun text => mkFiles text (period_file f) (polarity_file f) (enable_file f))
    (line_of_int value).

Definition set_pwmchip_period (value : Z) (f : Files) : option Files :=
  option_map
    (fun text =>
       mkFiles (duty_cycle_file f) text (polarity_file f) (enable_file f))
    (line_of_int value).

Definition set_pwmchip_enable (value : bool) (f : Files) : option Files :=
  let _value := if value then 1 else 0 in
  option_map
    (fun text =>
       mkFiles (duty_cycle_file f) (period_file f) (polarity_file f) text)
    (line_of_int _value).

Definition set_pwmchip_polarity (value : string) (f : Files) : Files :=
  mkFiles (duty_cycle_file f) (period_file f) (value ++ newline)%string
    (enable_file f).

End Conversions.

End Sysfs.

(** ** Words of the specification *)

(** Step [s] with duty [d] is triggered: a temperature exceeds its
    threshold lowered by the hysteresis. *)
Definition triggered (cpu_temp disk_temp previous_duty : Z)
  (s : FanStep) (d : Z) : Prop :=
  cpu_temp > cpu s - (if previous_duty >=? d then 2 else 0) \/
  disk_temp > disk s - (if previous_duty >=? d then 2 else 0).

(** [i] is the first index of the table whose step is triggered. *)
Definition first_triggered (cpu_temp disk_temp previous_duty : Z)
  (steps : list FanStep) (duty_table : list Z) (i : nat) : Prop :=
  (exists s d, nth_error steps i = Some s /\ nth_error duty_table i = Some d /\
               triggered cpu_temp disk_temp previous_duty s d) /\
  (forall j s d, (j < i)%nat ->
     nth_error steps j = Some s -> nth_error duty_table j = Some d ->
     ~ triggered cpu_temp disk_temp previous_duty s d).

Definition none_triggered (cpu_temp disk_temp previous_duty : Z)
  (steps : list FanStep) (duty_table : list Z) : Prop :=
  forall j s d,
    nth_error steps j = Some s -> nth_error duty_table j = Some d ->
    ~ triggered cpu_temp disk_temp previous_duty s d.

(** The threshold that a temperature has to exceed at a step of duty [d]. *)
Definition effective_threshold (previous_duty d threshold : Z) : Z :=
  if previous_duty >=? d then threshold - 2 else threshold.

(** One of the two effective thresholds of the step is exceeded. *)
Definition exceeds (cpu_temp disk_temp previous_duty : Z)
  (entry : FanStep * Z) : bool :=
  let '(s, d) := entry in
  (cpu_temp >? effective_threshold previous_duty d (cpu s)) ||
  (disk_temp >? effective_threshold previous_duty d (disk s)).

(** The decision read off the effective thresholds: the first step one of
    whose effective thresholds is exceeded, with the restart rule. *)
Definition decide_by_thresholds (cpu_temp disk_temp previous_duty : Z)
  (steps : list FanStep) (duty_table : list Z) : Z :=
  match
    find (exceeds cpu_temp disk_temp previous_duty) (combine steps duty_table)
  with
  | None => 0
  | Some (_, d) => if previous_duty =? 0 then hd 0 duty_table else d
  end.

(** Ascending order of a list of integers. *)
Fixpoint ascending (l : list Z) : Prop :=
  match l with
  | [] => True
  | x :: l' => Forall (fun y => x <= y) l' /\ ascending l'
  end.

(** Descending order of a list of integers, weak and strict. *)
Fixpoint descending (l : list Z) : Prop :=
  match l with
  | [] => True
  | x :: l' => Forall (fun y => y <= x) l' /\ descending l'
  end.

Fixpoint strictly_descending (l : list Z) : Prop :=
  match l with
  | [] => True
  | x :: l' => Forall (fun y => y < x) l' /\ strictly_descending l'
  end.

(** The tables used in the examples. *)
Definition rising_steps : list FanStep :=
  [mkFanStep 40 35 0; mkFanStep 55 45 50; mkFanStep 70 55 100].

Definition falling_steps : list FanStep :=
  [mkFanStep 70 55 100; mkFanStep 55 45 50; mkFanStep 40 35 0].

Definition rising_config : Config := mkConfig 5 40000 rising_steps [].
Definition falling_config : Config := mkConfig 5 40000 falling_steps [].

(** * Properties *)

Example one_tenth :
  Float.int_truediv 1 10 = Ok (Float.mk 7205759403792794 (-56)).
Proof. reflexivity. Qed.

Example one_third :
  Float.int_truediv 1 3 = Ok (Float.mk 6004799503160661 (-54)).
Proof. reflexivity. Qed.

Example minus_seven_halves :
  bind (Float.int_truediv (-7) 2) (fun x => Ok (Float.to_int x)) = Ok (-3).
Proof. reflexivity. Qed.

Example half_speed : duty_cycle_of 40000 50 = Ok 20000.
Proof. reflexivity. Qed.

Example big_period :
  duty_cycle_of 9007199254740993 100 = Ok 9007199254740992.
Proof. vm_compute. reflexivity. Qed.

Example first_rounding_up :
  duty_cycle_of (100 * 2 ^ 47 + 99) 1 = Ok (2 ^ 47 + 1).
Proof. vm_compute. reflexivity. Qed.

Example too_large : duty_cycle_of (2 ^ 1030) 100 = Raise OverflowError.
Proof. vm_compute. reflexivity. Qed.

Example rising_duty_table : _duty_cycles rising_config = Ok [0; 20000; 40000].
Proof. reflexivity. Qed.

Example stopped_fan_gets_first_entry :
  decide 60 30 0 rising_steps [0; 20000; 40000] = Ok 0 /\
  decide 60 30 0 falling_steps [40000; 20000; 0] = Ok 40000.
Proof. split; reflexivity. Qed.

Example cool_fan_is_switched_off :
  decide 30 20 40000 falling_steps [40000; 20000; 0] = Ok 0.
Proof. reflexivity. Qed.

Example hottest_reading : max_reading [41; 47; 47; 39] = 47.
Proof. reflexivity. Qed.

Example unparsable_zone_exits :
  Bin._cpu_temperature [Some 41000; None; Some 47999] = Raise (SystemExit 1).
Proof. reflexivity. Qed.

Example zones_in_whole_degrees :
  Bin._cpu_temperature [Some 41000; Some 47999; Some 39500] = Ok 47.
Proof. reflexivity. Qed.

Example default_config_switches_off :
  monitor default_config [steady 90 90]
    (mkWorld (mkPwm 20000 40000 true normal) [])
  = Ok (mkWorld (mkPwm 0 40000 true normal) [0]).
Proof. reflexivity. Qed.

Example zero_period_breaks_the_record :
  monitor_iteration (mkConfig 5 0 rising_steps []) (steady 60 30)
    (mkWorld (mkPwm 0 40000 true normal) [])
  = Raise ZeroDivisionError.
Proof. reflexivity. Qed.

(** ** The monad and the list helpers *)

Lemma getitem_ok {A : Type} (l : list A) (i : nat) (a : A) :
  getitem l i = Ok a <-> nth_error l i = Some a.
Proof.
  unfold getitem. destruct (nth_error l i); split; congruence.
Qed.

Lemma getitem_in {A : Type} (l : list A) (i : nat) (a : A) :
  getitem l i = Ok a -> In a l.
Proof.
  intros H. apply getitem_ok in H. eapply nth_error_In; eauto.
Qed.

Lemma getitem_lt {A : Type} (l : list A) (i : nat) :
  (i < length l)%nat -> exists a, getitem l i = Ok a.
Proof.
  intros H. unfold getitem.
  destruct (nth_error l i) eqn:E; [eauto|].
  apply nth_error_None in E. lia.
Qed.

Lemma traverse_map {A B : Type} (f : A -> result B) (g : A -> B) (l : list A) :
  (forall x, In x l -> f x = Ok (g x)) -> traverse f l = Ok (map g l).
Proof.
  induction l as [|x l IH]; intros H; [reflexivity|].
  cbn [traverse map]. rewrite (H x (or_introl eq_refl)). cbn [bind].
  rewrite IH; [reflexivity|]. intros y Hy. apply H. now right.
Qed.

Lemma traverse_length {A B : Type} (f : A -> result B) (l : list A) (l' : list B) :
  traverse f l = Ok l' -> length l' = length l.
Proof.
  revert l'. induction l as [|x l IH]; intros l' H; cbn [traverse] in H.
  - injection H as <-. reflexivity.
  - destruct (f x); cbn [bind] in H; [|discriminate].
    destruct (traverse f l); cbn [bind] in H; [|discriminate].
    injection H as <-. cbn [length]. f_equal. now apply IH.
Qed.

Lemma duty_cycles_length (config : Config) (dt : list Z) :
  _duty_cycles config = Ok dt -> length dt = length (fan_speed config).
Proof. apply traverse_length. Qed.


(** ** The duty table *)

Module FloatFacts.
Import Float.

Lemma scaled_neg (n d e : Z) :
  e < 0 ->
  scaled n d e = ((n * 2 ^ (- e)) / d, (n * 2 ^ (- e)) mod d, d).
Proof.
  intros He. unfold scaled.
  destruct (Z.leb_spec 0 e); [lia | reflexivity].
Qed.

Lemma exponent_hundred (n : Z) :
  0 < n < 100 * 2 ^ 47 -> emin <= exponent n 100 <= -6.
Proof.
  intros [Hpos Hlt]. unfold exponent.
  change (Z.log2 100) with 6. change (prec - 1) with 52.
  assert (HL : 0 <= Z.log2 n <= 53).
  { split; [apply Z.log2_nonneg|].
    assert (Z.log2 n < 54); [|lia].
    apply Z.log2_lt_pow2; [lia|]. change (2 ^ 54) with (128 * 2 ^ 47). lia. }
  rewrite scaled_neg by lia.
  destruct (Z.ltb_spec (n * 2 ^ (- (Z.log2 n - 6 - 52)) / 100) (2 ^ 52)) as [Hq|Hq].
  - unfold emin. lia.
  - assert (Z.log2 n <> 53); [|unfold emin; lia].
    intros E. rewrite E in Hq. change (- (53 - 6 - 52)) with 5 in Hq.
    assert (n * 2 ^ 5 / 100 < 2 ^ 52); [|lia].
    apply Z.div_lt_upper_bound; [lia|].
    change (2 ^ 5) with 32. change (2 ^ 52) with (32 * 2 ^ 47). lia.
Qed.

Lemma round_half_even_cases (q r den : Z) :
  round_half_even q r den = q /\ 2 * r <= den \/
  round_half_even q r den = q + 1 /\ den <= 2 * r.
Proof.
  unfold round_half_even.
  destruct (Z.ltb_spec (2 * r) den); [left; lia|].
  destruct (Z.ltb_spec den (2 * r)); [right; lia|].
  destruct (Z.even q); [left | right]; lia.
Qed.

Lemma rounded_in_unit (n t : Z) :
  0 <= n -> 64 <= t ->
  let m := round_half_even ((n * t) / 100) ((n * t) mod 100) 100 in
  (n / 100) * t <= m < (n / 100 + 1) * t.
Proof.
  intros Hn Ht. cbv zeta.
  pose proof (Z.div_mod n 100 ltac:(lia)) as En.
  pose proof (Z.mod_pos_bound n 100 ltac:(lia)) as Bn.
  pose proof (Z.div_mod (n * t) 100 ltac:(lia)) as Ent.
  pose proof (Z.mod_pos_bound (n * t) 100 ltac:(lia)) as Bnt.
  assert (E : n * t = 100 * (n / 100 * t) + (n mod 100) * t) by nia.
  assert (B : 0 <= (n mod 100) * t <= 99 * t) by nia.
  destruct (round_half_even_cases ((n * t) / 100) ((n * t) mod 100) 100)
    as [[-> H]|[-> H]]; lia.
Qed.

End FloatFacts.

Lemma duty_cycle_of_truncates (pwm_period speed : Z) :
  Z.abs (pwm_period * speed) < 100 * 2 ^ 47 ->
  duty_cycle_of pwm_period speed = Ok (Z.quot (pwm_period * speed) 100).
Proof.
  intros Hb. unfold duty_cycle_of, Float.int_truediv.
  set (a := pwm_period * speed) in *.
  change (100 =? 0) with false. cbv iota.
  destruct (Z.eqb_spec a 0) as [->|Ha]; [reflexivity|].
  change (Z.abs 100) with 100. unfold Float.nearest.
  pose proof (FloatFacts.exponent_hundred (Z.abs a) ltac:(lia)) as He.
  set (e := Float.exponent (Z.abs a) 100) in *.
  rewrite FloatFacts.scaled_neg by lia.
  pose proof (Z.pow_pos_nonneg 2 (- e) ltac:(lia) ltac:(lia)) as Ht0.
  assert (Ht : 64 <= 2 ^ (- e)).
  { change 64 with (2 ^ 6). apply Z.pow_le_mono_r; lia. }
  pose proof (FloatFacts.rounded_in_unit (Z.abs a) (2 ^ (- e)) ltac:(lia) Ht) as Hm.
  cbv zeta in Hm.
  set (m := Float.round_half_even _ _ _) in *.
  assert (Hq : m / 2 ^ (- e) = Z.abs a / 100).
  { symmetry. apply Z.div_unique with (m - Z.abs a / 100 * 2 ^ (- e)); lia. }
  clearbody m e. unfold Float.emin in He.
  destruct (Z.leb_spec 0 e) as [|_]; [lia|].
  rewrite Hq.
  assert (Hsmall : Z.abs a / 100 < 2 ^ Float.emax).
  { apply Z.div_lt_upper_bound; [lia|].
    assert (2 ^ 54 <= 2 ^ Float.emax) by (apply Z.pow_le_mono_r; unfold Float.emax; lia).
    change (2 ^ 54) with (128 * 2 ^ 47) in *. lia. }
  destruct (Z.leb_spec (2 ^ Float.emax) (Z.abs a / 100)); [lia|].
  cbn [bind]. f_equal. unfold Float.to_int. cbn [Float.mant Float.expo].
  destruct (Z.leb_spec 0 e) as [|_]; [lia|].
  change (Z.sgn 100) with 1. rewrite Z.mul_1_r.
  assert (Hm0 : 0 <= m).
  { pose proof (Z.div_pos (Z.abs a) 100 ltac:(lia) ltac:(lia)). nia. }
  destruct (Z.lt_total a 0) as [Hneg|[E|Hposa]]; [|lia|].
  - rewrite (Z.sgn_neg a Hneg).
    replace (-1 * m) with (- m) by lia.
    rewrite Z.quot_opp_l by lia.
    rewrite Z.quot_div_nonneg by lia. rewrite Hq.
    rewrite (Z.abs_neq a) by lia.
    replace a with (- - a) at 2 by lia.
    rewrite Z.quot_opp_l by lia.
    rewrite Z.quot_div_nonneg by lia. reflexivity.
  - rewrite (Z.sgn_pos a Hposa). rewrite Z.mul_1_l.
    rewrite Z.quot_div_nonneg by lia. rewrite Hq.
    rewrite (Z.abs_eq a) by lia.
    rewrite Z.quot_div_nonneg by lia. reflexivity.
Qed.

(** C9, as amended.  While every product [pwm_period * speed] stays below
    [100 * 2 ^ 47] in absolute value, which covers every 32-bit period, the
    duty table has one entry per step, in the order of the steps, equal to
    [pwm_period * speed / 100] truncated towards zero, and so exact when
    the product is a multiple of 100. *)
Theorem duty_cycles_truncated (config : Config) :
  (forall item, In item (fan_speed config) ->
     Z.abs (pwm_period config * speed item) < 100 * 2 ^ 47) ->
  _duty_cycles config
  = Ok (map (fun item => Z.quot (pwm_period config * speed item) 100)
          (fan_speed config)) /\
  (forall item, In item (fan_speed config) ->
     (pwm_period config * speed item) mod 100 = 0 ->
     100 * Z.quot (pwm_period config * speed item) 100
     = pwm_period config * speed item).
Proof.
  intros Hb. split.
  - apply traverse_map. intros item Hin.
    apply duty_cycle_of_truncates. now apply Hb.
  - intros item _ Hmod.
    set (x := pwm_period config * speed item) in *.
    apply Z.div_exact in Hmod; [|lia].
    assert (E : Z.quot x 100 = x / 100).
    { rewrite Hmod at 1. rewrite (Z.mul_comm 100). apply Z.quot_mul. lia. }
    rewrite E. lia.
Qed.

Lemma duty_cycles_truncated_witness :
  (forall item, In item (fan_speed rising_config) ->
     Z.abs (pwm_period rising_config * speed item) < 100 * 2 ^ 47) /\
  _duty_cycles rising_config
  = Ok (map (fun item => Z.quot (pwm_period rising_config * speed item) 100)
          (fan_speed rising_config)).
Proof.
  assert (Hb : forall item, In item (fan_speed rising_config) ->
                 Z.abs (pwm_period rising_config * speed item) < 100 * 2 ^ 47).
  { intros item [<-|[<-|[<-|[]]]]; reflexivity. }
  split; [exact Hb|].
  exact (proj1 (duty_cycles_truncated rising_config Hb)).
Defined.

(** C9 as stated fails: for a period of [2 ^ 53 + 1] and a speed of 100 the
    product is a multiple of 100, and the entry of the duty table is not
    the exact quotient. *)
Lemma duty_cycles_inexact_for_large_period :
  let config := mkConfig 5 9007199254740993 [mkFanStep 40 35 100] [] in
  (9007199254740993 * 100) mod 100 = 0 /\
  Z.quot (9007199254740993 * 100) 100 = 9007199254740993 /\
  _duty_cycles config = Ok [9007199254740992] /\
  _duty_cycles config
  <> Ok (map (fun item => Z.quot (pwm_period config * speed item) 100)
           (fan_speed config)).
Proof.
  cbv zeta. split; [reflexivity|]. split; [reflexivity|].
  assert (E : _duty_cycles (mkConfig 5 9007199254740993 [mkFanStep 40 35 100] [])
              = Ok [9007199254740992]) by (vm_compute; reflexivity).
  split; [exact E|]. rewrite E. cbn. discriminate.
Qed.

(** ** The scan *)

Section ScanFacts.

Variables cpu_temperature disk_temperature : nat -> Z.
Variable pwmchip_duty_cycle : Z.
Variables duty_cycles cpu_temperatures disk_temperatures : list Z.
Variable debug : Z -> result unit.

Local Abbreviation matches :=
  (step_matches cpu_temperature disk_temperature pwmchip_duty_cycle
     duty_cycles cpu_temperatures disk_temperatures).
Local Abbreviation scan' :=
  (scan cpu_temperature disk_temperature pwmchip_duty_cycle
     duty_cycles cpu_temperatures disk_temperatures debug).
Local Abbreviation scan_index' :=
  (scan_index cpu_temperature disk_temperature pwmchip_duty_cycle
     duty_cycles cpu_temperatures disk_temperatures).

(** The duty is determined by the index at which the condition first
    holds. *)
Lemma scan_by_index (indices : list nat) :
  scan' indices =
  (idx <- scan_index' indices ;;
   duty <- duty_of_index pwmchip_duty_cycle duty_cycles idx ;;
   match idx with
   | Some _ => _ <- debug duty ;; Ok duty
   | None => Ok duty
   end).
Proof.
  induction indices as [|i rest IH]; [reflexivity|].
  cbn [scan scan_index]. destruct (matches i) as [[|]|e]; cbn [bind]; auto.
Qed.

(** Whatever the sensors answer, the duty is [0] or an entry of the table. *)
Lemma scan_value (indices : list nat) (v : Z) :
  scan' indices = Ok v -> v = 0 \/ In v duty_cycles.
Proof.
  induction indices as [|i rest IH]; cbn [scan]; intros H.
  - left. congruence.
  - destruct (matches i) as [[|]|e]; cbn [bind] in H; [| auto | discriminate].
    right.
    destruct (if pwmchip_duty_cycle =? 0 then _ else _) as [duty|] eqn:E;
      cbn [bind] in H; [|discriminate].
    destruct (debug duty); cbn [bind] in H; [|discriminate].
    injection H as <-.
    destruct (pwmchip_duty_cycle =? 0); eapply getitem_in; eauto.
Qed.

Hypothesis cpu_length : length cpu_temperatures = length duty_cycles.
Hypothesis disk_length : length disk_temperatures = length duty_cycles.
Hypothesis debug_ok : forall duty, debug duty = Ok tt.

Lemma step_matches_total (i : nat) :
  (i < length duty_cycles)%nat -> exists b, matches i = Ok b.
Proof.
  intros Hi. unfold step_matches.
  destruct (getitem_lt duty_cycles i Hi) as [d ->].
  destruct (getitem_lt cpu_temperatures i ltac:(lia)) as [c ->].
  destruct (getitem_lt disk_temperatures i ltac:(lia)) as [k ->].
  cbn [bind]. destruct (_ >? _); eauto.
Qed.

(** With tables of one length the scan raises no exception. *)
Lemma scan_total (indices : list nat) :
  Forall (fun i => (i < length duty_cycles)%nat) indices ->
  exists v, scan' indices = Ok v.
Proof.
  induction 1 as [|i rest Hi _ IH]; cbn [scan]; [eauto|].
  destruct (step_matches_total i Hi) as [b ->]. cbn [bind].
  destruct b; [|exact IH].
  assert (exists duty,
            (if pwmchip_duty_cycle =? 0
             then getitem duty_cycles 0%nat
             else getitem duty_cycles i) = Ok duty) as [duty ->].
  { destruct (pwmchip_duty_cycle =? 0); apply getitem_lt; lia. }
  cbn [bind]. rewrite debug_ok. cbn [bind]. eauto.
Qed.

End ScanFacts.

Lemma seq_below (n : nat) : Forall (fun i => (i < n)%nat) (seq 0 n).
Proof.
  apply Forall_forall. intros i Hi. apply in_seq in Hi. lia.
Qed.

(** With tables of one length and arguments of the diagnostic record
    that raise nothing, the loop body yields a duty. *)
Lemma monitor_duty_total cpu_temperature disk_temperature pwmchip_duty_cycle
  duty_cycles cpu_temperatures disk_temperatures debug :
  length cpu_temperatures = length duty_cycles ->
  length disk_temperatures = length duty_cycles ->
  (forall duty, debug duty = Ok tt) ->
  exists v,
    monitor_duty cpu_temperature disk_temperature pwmchip_duty_cycle
      duty_cycles cpu_temperatures disk_temperatures debug = Ok v /\
    (v = 0 \/ In v duty_cycles).
Proof.
  intros Hc Hd Hdebug.
  destruct (scan_total cpu_temperature disk_temperature pwmchip_duty_cycle
              duty_cycles cpu_temperatures disk_temperatures debug Hc Hd
              Hdebug (seq 0 (length duty_cycles)) (seq_below _)) as [v Hv].
  exists v. split; [exact Hv|]. eapply scan_value; exact Hv.
Qed.

(** ** The decision on steady readings *)

Section DecideFacts.

Variables cpu_temp disk_temp previous_duty : Z.

Lemma exceeds_triggered (s : FanStep) (d : Z) :
  exceeds cpu_temp disk_temp previous_duty (s, d) = true <->
  triggered cpu_temp disk_temp previous_duty s d.
Proof.
  unfold exceeds, triggered, effective_threshold.
  rewrite orb_true_iff, !Z.gtb_gt.
  destruct (previous_duty >=? d); lia.
Qed.

Lemma exceeds_not_triggered (s : FanStep) (d : Z) :
  exceeds cpu_temp disk_temp previous_duty (s, d) = false <->
  ~ triggered cpu_temp disk_temp previous_duty s d.
Proof.
  rewrite <- exceeds_triggered.
  destruct (exceeds _ _ _ _); split; congruence.
Qed.

Lemma step_matches_steady (steps : list FanStep) (duty_table : list Z)
  (i : nat) (s : FanStep) (d : Z) :
  nth_error steps i = Some s -> nth_error duty_table i = Some d ->
  step_matches (fun _ => cpu_temp) (fun _ => disk_temp) previous_duty
    duty_table (map cpu steps) (map disk steps) i
  = Ok (exceeds cpu_temp disk_temp previous_duty (s, d)).
Proof.
  intros Hs Hd. unfold step_matches, getitem.
  rewrite !nth_error_map, Hs, Hd. cbn [option_map bind].
  unfold exceeds, effective_threshold. cbv zeta.
  destruct (previous_duty >=? d); rewrite ?Z.sub_0_r;
    destruct (cpu_temp >? _); reflexivity.
Qed.

Lemma scan_index_shift (s : FanStep) (d : Z) (steps : list FanStep)
  (duty_table : list Z) (indices : list nat) :
  scan_index (fun _ => cpu_temp) (fun _ => disk_temp) previous_duty
    (d :: duty_table) (map cpu (s :: steps)) (map disk (s :: steps))
    (map S indices)
  = result_map (option_map S)
      (scan_index (fun _ => cpu_temp) (fun _ => disk_temp) previous_duty
         duty_table (map cpu steps) (map disk steps) indices).
Proof.
  induction indices as [|i rest IH]; [reflexivity|].
  cbn [map scan_index].
  change (step_matches _ _ _ (d :: duty_table) _ _ (S i))
    with (step_matches (fun _ => cpu_temp) (fun _ => disk_temp) previous_duty
            duty_table (map cpu steps) (map disk steps) i).
  destruct (step_matches _ _ _ _ _ _ i) as [[|]|e]; cbn [bind]; auto.
Qed.

Lemma selected_nil (steps : list FanStep) :
  selected cpu_temp disk_temp previous_duty steps [] = Ok None.
Proof. reflexivity. Qed.

Lemma selected_cons (s : FanStep) (d : Z) (steps : list FanStep)
  (duty_table : list Z) :
  selected cpu_temp disk_temp previous_duty (s :: steps) (d :: duty_table)
  = if exceeds cpu_temp disk_temp previous_duty (s, d)
    then Ok (Some 0%nat)
    else result_map (option_map S)
           (selected cpu_temp disk_temp previous_duty steps duty_table).
Proof.
  unfold selected, monitor_index. cbn [length seq scan_index].
  rewrite (step_matches_steady (s :: steps) (d :: duty_table) 0 s d)
    by reflexivity.
  cbn [bind]. destruct (exceeds _ _ _ _); [reflexivity|].
  rewrite <- seq_shift. apply scan_index_shift.
Qed.

Lemma decide_by_selected (steps : list FanStep) (duty_table : list Z) :
  decide cpu_temp disk_temp previous_duty steps duty_table =
  (idx <- selected cpu_temp disk_temp previous_duty steps duty_table ;;
   duty_of_index previous_duty duty_table idx).
Proof.
  unfold decide, monitor_duty. rewrite scan_by_index.
  fold (monitor_index (fun _ : nat => cpu_temp) (fun _ : nat => disk_temp)
          previous_duty duty_table (map cpu steps) (map disk steps)).
  fold (selected cpu_temp disk_temp previous_duty steps duty_table).
  destruct (selected _ _ _ _ _) as [[i|]|e]; cbn [bind];
    [destruct (duty_of_index previous_duty duty_table (Some i)) | |];
    reflexivity.
Qed.

(** The scan stops at the first triggered step, or runs to the end when no
    step is triggered. *)
Lemma selected_spec (steps : list FanStep) (duty_table : list Z) :
  length duty_table = length steps ->
  (exists i,
     selected cpu_temp disk_temp previous_duty steps duty_table = Ok (Some i) /\
     first_triggered cpu_temp disk_temp previous_duty steps duty_table i) \/
  (selected cpu_temp disk_temp previous_duty steps duty_table = Ok None /\
   none_triggered cpu_temp disk_temp previous_duty steps duty_table).
Proof.
  revert duty_table.
  induction steps as [|s steps IH]; intros [|d duty_table] Hlen;
    try discriminate.
  - right. split; [reflexivity|]. intros [|j] s d; discriminate.
  - rewrite selected_cons.
    destruct (exceeds cpu_temp disk_temp previous_duty (s, d)) eqn:E.
    + left. exists 0%nat. split; [reflexivity|]. split.
      * exists s, d. repeat split. now apply exceeds_triggered.
      * intros j ? ? Hj. lia.
    + apply exceeds_not_triggered in E.
      destruct (IH duty_table ltac:(now injection Hlen)) as [[i [-> Hi]]|[-> Hn]];
        cbn [result_map bind option_map].
      * left. exists (S i). split; [reflexivity|].
        destruct Hi as [Hex Hbefore]. split; [exact Hex|].
        intros [|j] s' d' Hj Hs' Hd'.
        -- cbn in Hs', Hd'. congruence.
        -- apply (Hbefore j); [lia | exact Hs' | exact Hd'].
      * right. split; [reflexivity|].
        intros [|j] s' d' Hs' Hd'.
        -- cbn in Hs', Hd'. congruence.
        -- apply (Hn j); assumption.
Qed.

Lemma first_triggered_unique (steps : list FanStep) (duty_table : list Z)
  (i j : nat) :
  first_triggered cpu_temp disk_temp previous_duty steps duty_table i ->
  first_triggered cpu_temp disk_temp previous_duty steps duty_table j ->
  i = j.
Proof.
  intros [(si & di & Hsi & Hdi & Hti) Hi] [(sj & dj & Hsj & Hdj & Htj) Hj].
  destruct (Nat.lt_trichotomy i j) as [H|[H|H]]; [|exact H|].
  - exfalso. exact (Hj i si di H Hsi Hdi Hti).
  - exfalso. exact (Hi j sj dj H Hsj Hdj Htj).
Qed.

Lemma selected_first (steps : list FanStep) (duty_table : list Z) (i : nat) :
  length duty_table = length steps ->
  first_triggered cpu_temp disk_temp previous_duty steps duty_table i ->
  selected cpu_temp disk_temp previous_duty steps duty_table = Ok (Some i).
Proof.
  intros Hlen Hi.
  destruct (selected_spec steps duty_table Hlen) as [[j [Hj Hfj]]|[_ Hn]].
  - now rewrite (first_triggered_unique _ _ _ _ Hi Hfj).
  - destruct Hi as [(s & d & Hs & Hd & Ht) _]. destruct (Hn i s d Hs Hd Ht).
Qed.

Lemma selected_none (steps : list FanStep) (duty_table : list Z) :
  length duty_table = length steps ->
  none_triggered cpu_temp disk_temp previous_duty steps duty_table ->
  selected cpu_temp disk_temp previous_duty steps duty_table = Ok None.
Proof.
  intros Hlen Hn.
  destruct (selected_spec steps duty_table Hlen) as [[j [_ Hfj]]|[H _]];
    [|exact H].
  destruct Hfj as [(s & d & Hs & Hd & Ht) _]. destruct (Hn j s d Hs Hd Ht).
Qed.

End DecideFacts.

(** ** The fan curve *)

Lemma decide_cases (cpu_temp disk_temp previous_duty : Z)
  (steps : list FanStep) (duty_table : list Z) :
  length duty_table = length steps ->
  (exists i d d0,
      first_triggered cpu_temp disk_temp previous_duty steps duty_table i /\
      selected cpu_temp disk_temp previous_duty steps duty_table = Ok (Some i) /\
      nth_error duty_table i = Some d /\
      nth_error duty_table 0 = Some d0 /\
      decide cpu_temp disk_temp previous_duty steps duty_table
      = Ok (if previous_duty =? 0 then d0 else d))
   \/
   (none_triggered cpu_temp disk_temp previous_duty steps duty_table /\
    selected cpu_temp disk_temp previous_duty steps duty_table = Ok None /\
    decide cpu_temp disk_temp previous_duty steps duty_table = Ok 0).
Proof.
  intros Hlen. rewrite decide_by_selected.
  destruct (selected_spec cpu_temp disk_temp previous_duty steps duty_table Hlen)
    as [[i [Hsel Hfirst]]|[Hsel Hnone]]; rewrite Hsel; cbn [bind duty_of_index].
  - left. pose proof Hfirst as [(s & d & Hs & Hd & Ht) _].
    destruct duty_table as [|d0 duty_table]; [destruct i; discriminate|].
    exists i, d, d0. repeat split; try assumption; try apply Hfirst.
    unfold getitem. rewrite Hd. cbn [nth_error].
    destruct (previous_duty =? 0); reflexivity.
  - right. auto.
Qed.

(** C1.  The scan visits the indices in table order from 0, with hysteresis
    2 at index [i] when [previous_duty >= duty_table[i]] and 0 otherwise; it
    stops at the first index one of whose temperatures exceeds its
    threshold minus the hysteresis, and the duty is taken at that stop.
    When no index qualifies, and so for the empty table, the result is 0. *)
Theorem decide_scans_in_order (cpu_temp disk_temp previous_duty : Z)
  (steps : list FanStep) (duty_table : list Z) :
  length duty_table = length steps ->
  ((exists i d d0,
      first_triggered cpu_temp disk_temp previous_duty steps duty_table i /\
      selected cpu_temp disk_temp previous_duty steps duty_table = Ok (Some i) /\
      nth_error duty_table i = Some d /\
      nth_error duty_table 0 = Some d0 /\
      decide cpu_temp disk_temp previous_duty steps duty_table
      = Ok (if previous_duty =? 0 then d0 else d))
   \/
   (none_triggered cpu_temp disk_temp previous_duty steps duty_table /\
    selected cpu_temp disk_temp previous_duty steps duty_table = Ok None /\
    decide cpu_temp disk_temp previous_duty steps duty_table = Ok 0))
  /\ decide cpu_temp disk_temp previous_duty [] [] = Ok 0.
Proof.
  intros Hlen. split; [|reflexivity]. now apply decide_cases.
Qed.

Lemma decide_scans_in_order_witness :
  length [0; 20000; 40000] = length rising_steps /\
  ((exists i d d0,
      first_triggered 60 30 20000 rising_steps [0; 20000; 40000] i /\
      selected 60 30 20000 rising_steps [0; 20000; 40000] = Ok (Some i) /\
      nth_error [0; 20000; 40000] i = Some d /\
      nth_error [0; 20000; 40000] 0 = Some d0 /\
      decide 60 30 20000 rising_steps [0; 20000; 40000]
      = Ok (if 20000 =? 0 then d0 else d))
   \/
   (none_triggered 60 30 20000 rising_steps [0; 20000; 40000] /\
    selected 60 30 20000 rising_steps [0; 20000; 40000] = Ok None /\
    decide 60 30 20000 rising_steps [0; 20000; 40000] = Ok 0))
  /\ decide 60 30 20000 [] [] = Ok 0.
Proof.
  split; [reflexivity|].
  apply (decide_scans_in_order 60 30 20000 rising_steps [0; 20000; 40000]).
  reflexivity.
Defined.

(** C2.  From a stopped fan ([previous_duty = 0]) a triggered step yields
    the first entry of the duty table, whichever step matched; from a
    running fan the result is the duty of the matched step itself. *)
Theorem decide_restart_rule (cpu_temp disk_temp previous_duty : Z)
  (steps : list FanStep) (duty_table : list Z) :
  length duty_table = length steps ->
  (previous_duty = 0 ->
   (exists i s d, nth_error steps i = Some s /\ nth_error duty_table i = Some d /\
                  triggered cpu_temp disk_temp previous_duty s d) ->
   exists d0, nth_error duty_table 0 = Some d0 /\
              decide cpu_temp disk_temp previous_duty steps duty_table = Ok d0)
  /\
  (previous_duty <> 0 ->
   forall i d,
     first_triggered cpu_temp disk_temp previous_duty steps duty_table i ->
     nth_error duty_table i = Some d ->
     decide cpu_temp disk_temp previous_duty steps duty_table = Ok d).
Proof.
  intros Hlen. split.
  - intros Hp (i & s & d & Hs & Hd & Ht).
    destruct (decide_cases cpu_temp disk_temp previous_duty
                steps duty_table Hlen)
      as [(j & dj & d0 & _ & _ & _ & H0 & Hdec)|(Hn & _)].
    + exists d0. split; [exact H0|]. rewrite Hdec.
      apply Z.eqb_eq in Hp. now rewrite Hp.
    + destruct (Hn i s d Hs Hd Ht).
  - intros Hp i d Hfirst Hd.
    rewrite decide_by_selected.
    rewrite (selected_first _ _ _ _ _ _ Hlen Hfirst). cbn [bind duty_of_index].
    apply Z.eqb_neq in Hp. rewrite Hp. now apply getitem_ok.
Qed.

Lemma decide_restart_rule_witness :
  length [40000; 20000; 0] = length falling_steps /\
  (exists d0, nth_error [40000; 20000; 0] 0 = Some d0 /\
              decide 60 30 0 falling_steps [40000; 20000; 0] = Ok d0) /\
  decide 60 30 40000 falling_steps [40000; 20000; 0] = Ok 20000.
Proof.
  split; [reflexivity|]. split.
  - apply (decide_restart_rule 60 30 0 falling_steps [40000; 20000; 0]
             eq_refl); [reflexivity|].
    exists 1%nat, (mkFanStep 55 45 50), 20000.
    repeat split. left. vm_compute. reflexivity.
  - apply (proj2 (decide_restart_rule 60 30 40000 falling_steps
                    [40000; 20000; 0] eq_refl) ltac:(discriminate) 1%nat 20000);
      [|reflexivity].
    split.
    + exists (mkFanStep 55 45 50), 20000. repeat split. left. vm_compute. reflexivity.
    + intros [|j] s d Hj Hs Hd; [|lia].
      injection Hs as <-. injection Hd as <-.
      unfold triggered. cbn. lia.
Defined.

Lemma selected_find (cpu_temp disk_temp previous_duty : Z)
  (steps : list FanStep) (duty_table : list Z) :
  length duty_table = length steps ->
  exists idx,
    selected cpu_temp disk_temp previous_duty steps duty_table = Ok idx /\
    match idx with
    | None =>
        find (exceeds cpu_temp disk_temp previous_duty)
             (combine steps duty_table) = None
    | Some i =>
        exists s d,
          nth_error duty_table i = Some d /\
          find (exceeds cpu_temp disk_temp previous_duty)
               (combine steps duty_table) = Some (s, d)
    end.
Proof.
  revert duty_table.
  induction steps as [|s steps IH]; intros [|d duty_table] Hlen;
    try discriminate.
  - exists None. split; reflexivity.
  - rewrite selected_cons. cbn [combine find].
    destruct (exceeds cpu_temp disk_temp previous_duty (s, d)).
    + exists (Some 0%nat). split; [reflexivity|]. exists s, d. split; reflexivity.
    + destruct (IH duty_table ltac:(now injection Hlen)) as [idx [-> Hidx]].
      exists (option_map S idx). split; [reflexivity|].
      destruct idx as [i|]; exact Hidx.
Qed.

(** C3.  At a step of duty [d] the scan compares both temperatures with the
    threshold minus 2 when [previous_duty >= d] and with the unmodified
    threshold otherwise, and the decision is the one read off these
    effective thresholds. *)
Theorem hysteresis_effective_threshold (cpu_temp disk_temp previous_duty : Z)
  (steps : list FanStep) (duty_table : list Z) :
  length duty_table = length steps ->
  (forall i s d,
     nth_error steps i = Some s -> nth_error duty_table i = Some d ->
     (previous_duty >= d ->
      step_matches (fun _ => cpu_temp) (fun _ => disk_temp) previous_duty
        duty_table (map cpu steps) (map disk steps) i
      = Ok ((cpu_temp >? cpu s - 2) || (disk_temp >? disk s - 2))) /\
     (previous_duty < d ->
      step_matches (fun _ => cpu_temp) (fun _ => disk_temp) previous_duty
        duty_table (map cpu steps) (map disk steps) i
      = Ok ((cpu_temp >? cpu s) || (disk_temp >? disk s))))
  /\
  decide cpu_temp disk_temp previous_duty steps duty_table
  = Ok (decide_by_thresholds cpu_temp disk_temp previous_duty steps duty_table).
Proof.
  intros Hlen. split.
  - intros i s d Hs Hd.
    rewrite (step_matches_steady _ _ _ _ _ _ _ _ Hs Hd).
    unfold exceeds, effective_threshold. split; intros Hp.
    + destruct (Z.geb_spec previous_duty d); [reflexivity | lia].
    + destruct (Z.geb_spec previous_duty d); [lia | reflexivity].
  - rewrite decide_by_selected. unfold decide_by_thresholds.
    destruct (selected_find cpu_temp disk_temp previous_duty steps duty_table Hlen)
      as [[i|] [-> Hidx]]; cbn [bind duty_of_index].
    + destruct Hidx as (s & d & Hd & ->).
      destruct duty_table as [|d0 duty_table]; [destruct i; discriminate|].
      unfold getitem. rewrite Hd. cbn [nth_error hd].
      destruct (previous_duty =? 0); reflexivity.
    + now rewrite Hidx.
Qed.

Lemma hysteresis_effective_threshold_witness :
  length [40000; 20000; 0] = length falling_steps /\
  step_matches (fun _ => 54) (fun _ => 30) 20000
    [40000; 20000; 0] (map cpu falling_steps) (map disk falling_steps) 1
  = Ok ((54 >? 55 - 2) || (30 >? 45 - 2)) /\
  decide 54 30 20000 falling_steps [40000; 20000; 0]
  = Ok (decide_by_thresholds 54 30 20000 falling_steps [40000; 20000; 0]).
Proof.
  split; [reflexivity|].
  pose proof (hysteresis_effective_threshold 54 30 20000 falling_steps
                [40000; 20000; 0] eq_refl) as [Hstep Hdec].
  split; [|exact Hdec].
  apply (proj1 (Hstep 1%nat (mkFanStep 55 45 50) 20000 eq_refl eq_refl)).
  lia.
Defined.

(** C4.  In a table sorted ascending by threshold the step at which the
    scan stops has one of its thresholds, lowered by its hysteresis,
    exceeded by the corresponding temperature. *)
Theorem selected_step_is_triggered (cpu_temp disk_temp previous_duty : Z)
  (steps : list FanStep) (duty_table : list Z) (i : nat) :
  ascending (map cpu steps) -> ascending (map disk steps) ->
  length duty_table = length steps ->
  selected cpu_temp disk_temp previous_duty steps duty_table = Ok (Some i) ->
  exists s d,
    nth_error steps i = Some s /\ nth_error duty_table i = Some d /\
    (cpu_temp > cpu s - (if previous_duty >=? d then 2 else 0) \/
     disk_temp > disk s - (if previous_duty >=? d then 2 else 0)).
Proof.
  intros _ _ Hlen Hsel.
  destruct (selected_spec cpu_temp disk_temp previous_duty steps duty_table Hlen)
    as [[j [Hj Hfirst]]|[Hnone _]]; [|congruence].
  assert (j = i) as -> by congruence.
  exact (proj1 Hfirst).
Qed.

Lemma selected_step_is_triggered_witness :
  ascending (map cpu rising_steps) /\ ascending (map disk rising_steps) /\
  length [0; 20000; 40000] = length rising_steps /\
  selected 39 30 20000 rising_steps [0; 20000; 40000] = Ok (Some 0%nat) /\
  exists s d,
    nth_error rising_steps 0 = Some s /\ nth_error [0; 20000; 40000] 0 = Some d /\
    (39 > cpu s - (if 20000 >=? d then 2 else 0) \/
     30 > disk s - (if 20000 >=? d then 2 else 0)).
Proof.
  assert (Hc : ascending (map cpu rising_steps)).
  { cbn. repeat (split || constructor); lia. }
  assert (Hd : ascending (map disk rising_steps)).
  { cbn. repeat (split || constructor); lia. }
  split; [exact Hc|]. split; [exact Hd|].
  split; [reflexivity|]. split; [reflexivity|].
  exact (selected_step_is_triggered 39 30 20000 rising_steps [0; 20000; 40000]
           0 Hc Hd eq_refl eq_refl).
Defined.

(** *** Feeding the decision back *)

Lemma ascending_head (x y : Z) (l : list Z) :
  ascending (x :: l) -> In y l -> x <= y.
Proof.
  intros [H _] Hy. rewrite Forall_forall in H. now apply H.
Qed.

(** In a table ascending in both thresholds and in duty, no later step is
    triggered when the first one is not. *)
Lemma ascending_tail_quiet (cpu_temp disk_temp previous_duty : Z)
  (s : FanStep) (d : Z) (steps : list FanStep) (duty_table : list Z) :
  ascending (map cpu (s :: steps)) -> ascending (map disk (s :: steps)) ->
  ascending (d :: duty_table) ->
  ~ triggered cpu_temp disk_temp previous_duty s d ->
  none_triggered cpu_temp disk_temp previous_duty steps duty_table.
Proof.
  intros Hc Hk Hd Hquiet j s' d' Hs' Hd' Ht. apply Hquiet.
  pose proof (ascending_head _ (cpu s') _ Hc
                (in_map cpu _ _ (nth_error_In _ _ Hs'))) as Lc.
  pose proof (ascending_head _ (disk s') _ Hk
                (in_map disk _ _ (nth_error_In _ _ Hs'))) as Lk.
  pose proof (ascending_head _ d' _ Hd (nth_error_In _ _ Hd')) as Ld.
  unfold triggered in *.
  destruct (Z.geb_spec previous_duty d'); destruct (Z.geb_spec previous_duty d);
    lia.
Qed.

Lemma decide_ascending (cpu_temp disk_temp previous_duty : Z)
  (s : FanStep) (d : Z) (steps : list FanStep) (duty_table : list Z) :
  length duty_table = length steps ->
  ascending (map cpu (s :: steps)) -> ascending (map disk (s :: steps)) ->
  ascending (d :: duty_table) ->
  decide cpu_temp disk_temp previous_duty (s :: steps) (d :: duty_table)
  = Ok (if exceeds cpu_temp disk_temp previous_duty (s, d) then d else 0).
Proof.
  intros Hlen Hc Hk Hd. rewrite decide_by_selected, selected_cons.
  destruct (exceeds cpu_temp disk_temp previous_duty (s, d)) eqn:E.
  - cbn. destruct (previous_duty =? 0); reflexivity.
  - apply exceeds_not_triggered in E.
    rewrite (selected_none _ _ _ _ _ Hlen
               (ascending_tail_quiet _ _ _ _ _ _ _ Hc Hk Hd E)).
    reflexivity.
Qed.

(** C5, as amended.  In a table ascending in both thresholds and in duty,
    with no negative duty, the decision fed back as the previous duty at
    unchanged temperatures is returned again. *)
Theorem decide_feedback_ascending (cpu_temp disk_temp previous_duty : Z)
  (steps : list FanStep) (duty_table : list Z) :
  length duty_table = length steps ->
  ascending (map cpu steps) -> ascending (map disk steps) ->
  ascending duty_table -> Forall (fun d => 0 <= d) duty_table ->
  exists r,
    decide cpu_temp disk_temp previous_duty steps duty_table = Ok r /\
    decide cpu_temp disk_temp r steps duty_table = Ok r.
Proof.
  intros Hlen Hc Hk Hd Hpos.
  destruct steps as [|s steps], duty_table as [|d duty_table];
    try discriminate.
  - exists 0. split; reflexivity.
  - injection Hlen as Hlen.
    rewrite decide_ascending by assumption.
    eexists. split; [reflexivity|].
    rewrite decide_ascending by assumption. f_equal.
    assert (0 <= d) by now inversion Hpos.
    destruct (exceeds cpu_temp disk_temp previous_duty (s, d)) eqn:E.
    + assert (E' : exceeds cpu_temp disk_temp d (s, d) = true); [|now rewrite E'].
      apply exceeds_triggered. apply exceeds_triggered in E.
      unfold triggered in *.
      destruct (Z.geb_spec d d); [|lia].
      destruct (previous_duty >=? d); lia.
    + destruct (exceeds cpu_temp disk_temp 0 (s, d)) eqn:E'; [|reflexivity].
      apply exceeds_triggered in E'. apply exceeds_not_triggered in E.
      unfold triggered in *.
      destruct (Z.geb_spec 0 d); [lia|].
      destruct (previous_duty >=? d); lia.
Qed.

Lemma decide_feedback_ascending_witness :
  length [0; 20000; 40000] = length rising_steps /\
  exists r,
    decide 60 30 20000 rising_steps [0; 20000; 40000] = Ok r /\
    decide 60 30 r rising_steps [0; 20000; 40000] = Ok r.
Proof.
  split; [reflexivity|].
  apply (decide_feedback_ascending 60 30 20000 rising_steps [0; 20000; 40000]
           eq_refl).
  - cbn. repeat (split || constructor); lia.
  - cbn. repeat (split || constructor); lia.
  - cbn. repeat (split || constructor); lia.
  - repeat constructor; lia.
Defined.

(** C5 as stated fails: with the highest step first, a stopped fan at 60
    degrees is started at the first entry, and the next decision at the
    same temperatures moves on to the matched step. *)
Lemma decide_feedback_drifts :
  _duty_cycles falling_config = Ok [40000; 20000; 0] /\
  decide 60 30 0 falling_steps [40000; 20000; 0] = Ok 40000 /\
  decide 60 30 40000 falling_steps [40000; 20000; 0] = Ok 20000 /\
  decide 60 30 40000 falling_steps [40000; 20000; 0]
  <> decide 60 30 0 falling_steps [40000; 20000; 0].
Proof.
  repeat split; try reflexivity. discriminate.
Qed.

(** *** Hysteresis at the second step *)

(** C6, as amended.  While the first step is not triggered and the fan runs
    at the nonzero duty of the second step, a CPU temperature one degree
    below the second threshold keeps the duty of the second step. *)
Theorem hysteresis_keeps_second_step (disk_temp : Z) (s0 s1 : FanStep)
  (d0 d1 : Z) (steps : list FanStep) (duty_table : list Z) :
  length duty_table = length steps ->
  d1 <> 0 ->
  ~ triggered (cpu s1 - 1) disk_temp d1 s0 d0 ->
  decide (cpu s1 - 1) disk_temp d1 (s0 :: s1 :: steps) (d0 :: d1 :: duty_table)
  = Ok d1.
Proof.
  intros Hlen Hd1 Hquiet.
  rewrite decide_by_selected, selected_cons.
  apply exceeds_not_triggered in Hquiet. rewrite Hquiet.
  rewrite selected_cons.
  assert (E : exceeds (cpu s1 - 1) disk_temp d1 (s1, d1) = true).
  { apply exceeds_triggered. left. destruct (Z.geb_spec d1 d1); lia. }
  rewrite E. cbn. apply Z.eqb_neq in Hd1. now rewrite Hd1.
Qed.

Lemma hysteresis_keeps_second_step_witness :
  length [0] = length [mkFanStep 40 35 0] /\ 20000 <> 0 /\
  ~ triggered (55 - 1) 30 20000 (mkFanStep 70 55 100) 40000 /\
  decide (55 - 1) 30 20000 falling_steps [40000; 20000; 0] = Ok 20000.
Proof.
  assert (Hq : ~ triggered (55 - 1) 30 20000 (mkFanStep 70 55 100) 40000).
  { unfold triggered. cbn. lia. }
  split; [reflexivity|]. split; [discriminate|]. split; [exact Hq|].
  exact (hysteresis_keeps_second_step 30 (mkFanStep 70 55 100)
           (mkFanStep 55 45 50) 40000 20000 [mkFanStep 40 35 0] [0]
           eq_refl ltac:(discriminate) Hq).
Defined.

(** C6 as stated fails: in the ascending table the first step is triggered
    at 54 degrees, the scan stops there and the duty drops to its entry. *)
Lemma ascending_table_drops_to_first_step :
  ascending (map cpu rising_steps) /\ ascending (map disk rising_steps) /\
  _duty_cycles rising_config = Ok [0; 20000; 40000] /\
  Forall (fun s => 30 < disk s - 2) rising_steps /\
  decide (55 - 1) 30 20000 rising_steps [0; 20000; 40000] = Ok 0 /\
  decide (55 - 1) 30 20000 rising_steps [0; 20000; 40000] <> Ok 20000.
Proof.
  split; [cbn; repeat (split || constructor); lia|].
  split; [cbn; repeat (split || constructor); lia|].
  split; [reflexivity|].
  split; [repeat constructor|].
  split; [reflexivity | discriminate].
Qed.

(** ** The control loop *)

Lemma monitor_iteration_inv (config : Config) (r : Readings) (w w' : World) :
  monitor_iteration config r w = Ok w' ->
  exists duty_cycles duty,
    _duty_cycles config = Ok duty_cycles /\
    monitor_duty (cpu_at r) (disk_at r) (get_pwmchip_duty_cycle w) duty_cycles
      (_cpu_temperatures config) (_disk_temperatures config)
      (debug_arguments config w) = Ok duty /\
    w' = set_pwmchip_duty_cycle duty w.
Proof.
  unfold monitor_iteration. intros H.
  destruct (_duty_cycles config) as [duty_cycles|]; cbn [bind] in H;
    [|discriminate].
  destruct (monitor_duty _ _ _ _ _ _) as [duty|] eqn:E; cbn [bind] in H;
    [|discriminate].
  exists duty_cycles, duty. repeat split; congruence.
Qed.

(** C7, as amended.  Every iteration writes the duty-cycle attribute once,
    with the result of the fan curve, whether or not the result differs
    from the duty read at the start; no other attribute is touched, and
    when the result equals the duty read at the start the attributes after
    the iteration are those before it. *)
Theorem monitor_iteration_writes_result (config : Config) (r : Readings)
  (w w' : World) :
  monitor_iteration config r w = Ok w' ->
  exists duty_cycles duty,
    _duty_cycles config = Ok duty_cycles /\
    monitor_duty (cpu_at r) (disk_at r) (get_pwmchip_duty_cycle w) duty_cycles
      (_cpu_temperatures config) (_disk_temperatures config)
      (debug_arguments config w) = Ok duty /\
    duty_cycle_writes w' = duty :: duty_cycle_writes w /\
    duty_cycle (pwm w') = duty /\
    period (pwm w') = period (pwm w) /\
    enable (pwm w') = enable (pwm w) /\
    polarity (pwm w') = polarity (pwm w) /\
    (duty = get_pwmchip_duty_cycle w -> pwm w' = pwm w).
Proof.
  intros H.
  destruct (monitor_iteration_inv config r w w' H)
    as (duty_cycles & duty & Hdt & Hduty & ->).
  exists duty_cycles, duty. repeat split; try assumption.
  intros ->. unfold get_pwmchip_duty_cycle.
  destruct w as [[dc p e pol] ws]. reflexivity.
Qed.

Lemma monitor_iteration_writes_result_witness :
  let w := mkWorld (mkPwm 40000 40000 true normal) [40000] in
  let w' := mkWorld (mkPwm 20000 40000 true normal) [20000; 40000] in
  monitor_iteration falling_config (steady 60 30) w = Ok w' /\
  exists duty_cycles duty,
    _duty_cycles falling_config = Ok duty_cycles /\
    monitor_duty (cpu_at (steady 60 30)) (disk_at (steady 60 30))
      (get_pwmchip_duty_cycle w) duty_cycles
      (_cpu_temperatures falling_config) (_disk_temperatures falling_config)
      (debug_arguments falling_config w)
    = Ok duty /\
    duty_cycle_writes w' = duty :: duty_cycle_writes w /\
    duty_cycle (pwm w') = duty /\
    period (pwm w') = period (pwm w) /\
    enable (pwm w') = enable (pwm w) /\
    polarity (pwm w') = polarity (pwm w) /\
    (duty = get_pwmchip_duty_cycle w -> pwm w' = pwm w).
Proof.
  intros w w'. split; [reflexivity|].
  exact (monitor_iteration_writes_result falling_config (steady 60 30) w w'
           eq_refl).
Defined.

(** C7 as stated fails: the fan curve returns the duty the channel already
    has, and the iteration writes the attribute all the same. *)
Lemma unchanged_duty_is_written :
  let w := mkWorld (mkPwm 20000 40000 true normal) [] in
  monitor_duty (cpu_at (steady 60 30)) (disk_at (steady 60 30))
    (get_pwmchip_duty_cycle w) [40000; 20000; 0]
    (_cpu_temperatures falling_config) (_disk_temperatures falling_config)
    (debug_arguments falling_config w)
  = Ok (get_pwmchip_duty_cycle w) /\
  monitor_iteration falling_config (steady 60 30) w
  = Ok (mkWorld (mkPwm 20000 40000 true normal) [20000]) /\
  duty_cycle_writes (mkWorld (mkPwm 20000 40000 true normal) [20000])
  <> duty_cycle_writes w.
Proof.
  cbv zeta. repeat split; try reflexivity. discriminate.
Qed.

(** C10.  Along any sequence of readings, every value that the loop has
    written to the duty-cycle attribute when its iterations are through is
    0 or an entry of the duty table, and the attribute holds the last of
    them. *)
Theorem monitor_commands_table_duties (config : Config) (dt : list Z)
  (trace : list Readings) (w w' : World) :
  _duty_cycles config = Ok dt ->
  monitor config trace w = Ok w' ->
  exists written,
    duty_cycle_writes w' = written ++ duty_cycle_writes w /\
    length written = length trace /\
    Forall (fun duty => duty = 0 \/ In duty dt) written /\
    get_pwmchip_duty_cycle w' = hd (get_pwmchip_duty_cycle w) written.
Proof.
  intros Hdt. revert w.
  induction trace as [|r trace IH]; intros w Hrun; cbn [monitor] in Hrun.
  - injection Hrun as <-. exists []. repeat split. constructor.
  - destruct (monitor_iteration config r w) as [w1|] eqn:E1;
      cbn [bind] in Hrun; [|discriminate].
    destruct (monitor_iteration_inv config r w w1 E1)
      as (dt' & duty & Hdt' & Hduty & ->).
    assert (dt' = dt) as -> by congruence.
    apply scan_value in Hduty.
    destruct (IH _ Hrun) as (written & Hlog & Hlen & Hall & Hlast).
    exists (written ++ [duty]). split; [|split; [|split]].
    + rewrite Hlog. cbn [set_pwmchip_duty_cycle duty_cycle_writes].
      now rewrite <- app_assoc.
    + rewrite length_app. cbn [length]. lia.
    + apply Forall_app. split; [exact Hall|]. now constructor.
    + rewrite Hlast. destruct written; reflexivity.
Qed.

Lemma monitor_commands_table_duties_witness :
  let w := mkWorld (mkPwm 40000 40000 true normal) [] in
  let w' := mkWorld (mkPwm 0 40000 true normal) [0; 20000; 20000] in
  let trace := [steady 60 30; steady 60 30; steady 30 30] in
  _duty_cycles falling_config = Ok [40000; 20000; 0] /\
  monitor falling_config trace w = Ok w' /\
  exists written,
    duty_cycle_writes w' = written ++ duty_cycle_writes w /\
    length written = length trace /\
    Forall (fun duty => duty = 0 \/ In duty [40000; 20000; 0]) written /\
    get_pwmchip_duty_cycle w' = hd (get_pwmchip_duty_cycle w) written.
Proof.
  intros w w' trace. split; [reflexivity|]. split; [reflexivity|].
  exact (monitor_commands_table_duties falling_config [40000; 20000; 0]
           trace w w' eq_refl eq_refl).
Defined.

(** ** The temperature providers *)

Lemma py_max_fold (l : list Z) (a : Z) :
  let r := fold_left (fun m x => if x >? m then x else m) l a in
  In r (a :: l) /\ a <= r /\ Forall (fun x => x <= r) l.
Proof.
  revert a. induction l as [|x l IH]; intros a; cbn [fold_left].
  - cbv zeta. repeat split; [now left | lia | constructor].
  - cbv zeta. specialize (IH (if x >? a then x else a)). cbv zeta in IH.
    destruct IH as (Hin & Hle & Hall).
    set (r := fold_left _ l _) in *.
    destruct (Z.gtb_spec x a).
    + repeat split; [right; exact Hin | lia | constructor; [lia | exact Hall]].
    + repeat split; [| lia | constructor; [lia | exact Hall]].
      destruct Hin as [<-|Hin]; [now left | right; now right].
Qed.

(** C8.  On an empty list of readings a provider answers 0; on a non-empty
    list it answers an element of the list that no element exceeds.  Each
    of the four providers applies this selection to the readings of its
    sources, and answers 0 without an error when it has no source or its
    sources give no reading. *)
Theorem provider_returns_maximum :
  max_reading [] = 0 /\
  (forall t rest,
     In (max_reading (t :: rest)) (t :: rest) /\
     Forall (fun x => x <= max_reading (t :: rest)) (t :: rest)) /\
  (forall zones,
     Bin._cpu_temperature zones
     = result_map max_reading (traverse Bin.zone_reading zones)) /\
  (forall hddtemp config,
     Bin._disk_temperature hddtemp config
     = result_map max_reading
         (traverse (fun device => or_exit (hddtemp device))
            (disk_devices config))) /\
  (forall sensors,
     Sbin._cpu_temperature sensors
     = result_map (fun per_chip => max_reading (concat per_chip))
         (traverse (fun chip => or_exit (sensors chip)) Sbin.chips)) /\
  (forall smartctl config,
     Sbin._disk_temperature smartctl config
     = result_map max_reading
         (traverse (fun device => or_exit (smartctl device))
            (disk_devices config))) /\
  Bin._cpu_temperature [] = Ok 0 /\
  (forall hddtemp, Bin._disk_temperature hddtemp default_config = Ok 0) /\
  Sbin._cpu_temperature (fun _ => Some []) = Ok 0 /\
  (forall smartctl, Sbin._disk_temperature smartctl default_config = Ok 0).
Proof.
  split; [reflexivity|]. split; [|repeat split; reflexivity].
  intros t [|b rest]; cbn [max_reading].
  - split; [now left | constructor; [lia | constructor]].
  - destruct (py_max_fold (b :: rest) t) as (Hin & Hle & Hall).
    split; [exact Hin | constructor; [exact Hle | exact Hall]].
Qed.

(** ** True division of integers that a binary64 holds exactly *)

Module TrueDivFacts.
Import Float.

Lemma scaled_nonpos (n d e : Z) :
  e <= 0 ->
  scaled n d e = ((n * 2 ^ (- e)) / d, (n * 2 ^ (- e)) mod d, d).
Proof.
  intros He. unfold scaled.
  destruct (Z.leb_spec 0 e); [|reflexivity].
  assert (e = 0) as -> by lia. cbn [Z.opp]. rewrite Z.pow_0_r, !Z.mul_1_r.
  reflexivity.
Qed.

Lemma exponent_range (n d : Z) :
  0 < n -> 0 < d -> Z.log2 d <= 1020 ->
  Z.log2 n - Z.log2 d - 53 <= exponent n d <= Z.log2 n - Z.log2 d - 52.
Proof.
  intros Hn Hd Hb. unfold exponent. change (prec - 1) with 52.
  pose proof (Z.log2_nonneg n).
  destruct (scaled n d (Z.log2 n - Z.log2 d - 52)) as [[q0 ?] ?].
  unfold emin. destruct (q0 <? 2 ^ 52); lia.
Qed.

Lemma rounded_between (n d t : Z) :
  0 <= n -> 0 < d -> d < 2 * t ->
  (n / d) * t
  <= round_half_even ((n * t) / d) ((n * t) mod d) d
  < (n / d + 1) * t.
Proof.
  intros Hn Hd Ht.
  pose proof (Z.div_mod n d ltac:(lia)) as En.
  pose proof (Z.mod_pos_bound n d ltac:(lia)) as Bn.
  pose proof (Z.div_mod (n * t) d ltac:(lia)) as Ent.
  pose proof (Z.mod_pos_bound (n * t) d ltac:(lia)) as Bnt.
  set (k := n / d) in *. set (r0 := n mod d) in *.
  set (q := (n * t) / d) in *. set (r := (n * t) mod d) in *.
  assert (E : d * q + r = d * (k * t) + r0 * t) by nia.
  assert (B : 0 <= r0 * t <= (d - 1) * t) by nia.
  assert (Lo : k * t - 1 < q) by nia.
  destruct (FloatFacts.round_half_even_cases q r d) as [[-> H]|[-> H]].
  - split; [lia|]. nia.
  - split; [lia|]. nia.
Qed.

End TrueDivFacts.

(** Ints below [2 ^ 53] in absolute value are binary64 numbers; their true
    quotient never overflows and truncates to the integer quotient. *)
Lemma int_truediv_truncates (a b : Z) :
  Z.abs a < 2 ^ 53 -> b <> 0 -> Z.abs b < 2 ^ 1021 ->
  exists x, Float.int_truediv a b = Ok x /\ Float.to_int x = Z.quot a b.
Proof.
  intros Ha Hb0 Hb. unfold Float.int_truediv.
  destruct (Z.eqb_spec b 0) as [|_]; [contradiction|].
  destruct (Z.eqb_spec a 0) as [->|Ha0].
  { eexists. split; [reflexivity|]. now rewrite Z.quot_0_l. }
  set (n := Z.abs a) in *. set (d := Z.abs b) in *.
  assert (Hn : 0 < n) by (unfold n; lia).
  assert (Hd : 0 < d) by (unfold d; lia).
  assert (HA : Z.log2 n <= 52).
  { assert (Z.log2 n < 53); [|lia]. now apply Z.log2_lt_pow2. }
  assert (HB : Z.log2 d <= 1020).
  { assert (Z.log2 d < 1021); [|lia]. now apply Z.log2_lt_pow2. }
  pose proof (Z.log2_nonneg n) as HA0. pose proof (Z.log2_nonneg d) as HB0.
  pose proof (TrueDivFacts.exponent_range n d Hn Hd HB) as He.
  unfold Float.nearest. set (e := Float.exponent n d) in *.
  rewrite TrueDivFacts.scaled_nonpos by lia.
  set (t := 2 ^ (- e)).
  assert (Ht : d < 2 * t).
  { pose proof (proj2 (Z.log2_spec d Hd)) as Hup.
    assert (2 ^ Z.log2 d <= t) by (apply Z.pow_le_mono_r; lia).
    replace (Z.succ (Z.log2 d)) with (Z.log2 d + 1) in Hup by lia.
    rewrite Z.pow_add_r in Hup by lia. lia. }
  pose proof (TrueDivFacts.rounded_between n d t ltac:(lia) Hd Ht) as Hm.
  set (m := Float.round_half_even _ _ _) in *.
  assert (Ht0 : 0 < t) by lia.
  assert (Hq : m / t = n / d).
  { symmetry. apply Z.div_unique with (m - n / d * t); lia. }
  assert (Hk : 0 <= n / d) by (apply Z.div_pos; lia).
  assert (Hm0 : 0 <= m) by nia.
  assert (Hval : (if 0 <=? e then m * 2 ^ e else m / t) = n / d).
  { destruct (Z.leb_spec 0 e); [|exact Hq].
    assert (e = 0) by lia. subst t. clearbody m e. subst e.
    cbn in Hq |- *. rewrite Z.div_1_r in Hq. lia. }
  rewrite Hval.
  assert (Hsmall : n / d < 2 ^ Float.emax).
  { assert (n / d <= n) by (apply Z.div_le_upper_bound; nia).
    assert (2 ^ 53 <= 2 ^ Float.emax)
      by (apply Z.pow_le_mono_r; unfold Float.emax; lia).
    lia. }
  destruct (Z.leb_spec (2 ^ Float.emax) (n / d)); [lia|].
  eexists. split; [reflexivity|].
  unfold Float.to_int. cbn [Float.mant Float.expo].
  rewrite (Z.quot_div a b Hb0). fold n d. rewrite <- Hq.
  destruct (Z.leb_spec 0 e).
  - assert (e = 0) by lia. subst t. clearbody m e. subst e.
    cbn. rewrite Z.div_1_r. lia.
  - set (s := Z.sgn a * Z.sgn b).
    assert (Hs : s = 1 \/ s = -1) by (unfold s; lia).
    destruct Hs as [->| ->].
    + rewrite !Z.mul_1_l. apply Z.quot_div_nonneg; lia.
    + replace (-1 * m) with (- m) by lia.
      rewrite Z.quot_opp_l by lia. rewrite Z.quot_div_nonneg by lia.
      unfold t. lia.
Qed.

(** * Further properties *)

(** ** Readings and duties as integers *)

(** X1.  A thermal zone holding [raw] millidegrees, below [2 ^ 53] in
    absolute value, is read as [raw / 1000] truncated towards zero, and
    the CPU temperature of such zones is the largest of these readings. *)
Theorem zone_reading_truncates (raws : list Z) :
  Forall (fun raw => Z.abs raw < 2 ^ 53) raws ->
  Forall (fun raw => Bin.zone_reading (Some raw) = Ok (Z.quot raw 1000)) raws /\
  Bin._cpu_temperature (map Some raws)
  = Ok (max_reading (map (fun raw => Z.quot raw 1000) raws)).
Proof.
  intros Hb.
  assert (Hz : forall raw, In raw raws ->
                 Bin.zone_reading (Some raw) = Ok (Z.quot raw 1000)).
  { intros raw Hin. rewrite Forall_forall in Hb.
    unfold Bin.zone_reading. cbn [or_exit bind].
    destruct (int_truediv_truncates raw 1000 (Hb raw Hin) ltac:(lia))
      as (x & -> & <-); [|reflexivity].
    assert (2 ^ 10 <= 2 ^ 1021) by (apply Z.pow_le_mono_r; lia).
    change (Z.abs 1000) with 1000. change (2 ^ 10) with 1024 in *. lia. }
  split; [now apply Forall_forall|].
  unfold Bin._cpu_temperature.
  rewrite (traverse_map Bin.zone_reading (fun z => match z with
                                                   | Some raw => Z.quot raw 1000
                                                   | None => 0
                                                   end)).
  - cbn [bind]. now rewrite map_map.
  - intros z Hin. apply in_map_iff in Hin as (raw & <- & Hin). now apply Hz.
Qed.

Lemma zone_reading_truncates_witness :
  Forall (fun raw => Z.abs raw < 2 ^ 53) [47999; -1500; 41000] /\
  Bin._cpu_temperature (map Some [47999; -1500; 41000])
  = Ok (max_reading (map (fun raw => Z.quot raw 1000) [47999; -1500; 41000])).
Proof.
  assert (Hb : Forall (fun raw => Z.abs raw < 2 ^ 53) [47999; -1500; 41000])
    by (repeat constructor).
  split; [exact Hb|].
  exact (proj2 (zone_reading_truncates [47999; -1500; 41000] Hb)).
Defined.

Lemma duty_cycle_of_bounds (pwm_period speed : Z) :
  0 <= pwm_period < 2 ^ 47 -> 0 <= speed <= 100 ->
  exists d, duty_cycle_of pwm_period speed = Ok d /\ 0 <= d <= pwm_period /\
            (speed = 0 -> d = 0) /\ (speed = 100 -> d = pwm_period).
Proof.
  intros Hp Hs.
  assert (Hb : Z.abs (pwm_period * speed) < 100 * 2 ^ 47) by nia.
  rewrite (duty_cycle_of_truncates _ _ Hb).
  eexists. split; [reflexivity|].
  assert (0 <= pwm_period * speed) by nia.
  rewrite Z.quot_div_nonneg by lia.
  repeat split.
  - apply Z.div_pos; lia.
  - apply Z.div_le_upper_bound; nia.
  - intros ->. rewrite Z.mul_0_r. reflexivity.
  - intros ->. apply Z.div_mul. lia.
Qed.

Lemma duty_cycles_bounds (config : Config) :
  0 <= pwm_period config < 2 ^ 47 ->
  Forall (fun item => 0 <= speed item <= 100) (fan_speed config) ->
  exists dt, _duty_cycles config = Ok dt /\
             length dt = length (fan_speed config) /\
             Forall (fun d => 0 <= d <= pwm_period config) dt.
Proof.
  intros Hp Hs. unfold _duty_cycles.
  induction (fan_speed config) as [|item items IH]; cbn [traverse].
  - exists []. repeat split. constructor.
  - inversion Hs as [|? ? Hitem Hitems]; subst.
    destruct (duty_cycle_of_bounds _ _ Hp Hitem) as (d & -> & Hd & _).
    destruct (IH Hitems) as (dt & -> & Hlen & Hall). cbn [bind].
    exists (d :: dt). repeat split; [cbn; lia | now constructor].
Qed.

(** X2.  With a period in [0, 2 ^ 47) and speeds between 0 and 100 the
    duty table has one duty per step, each between 0 and the period; a
    speed of 0 gives the duty 0 and a speed of 100 the whole period. *)
Theorem duty_cycles_within_period (config : Config) :
  0 <= pwm_period config < 2 ^ 47 ->
  Forall (fun item => 0 <= speed item <= 100) (fan_speed config) ->
  (exists dt, _duty_cycles config = Ok dt /\
              length dt = length (fan_speed config) /\
              Forall (fun d => 0 <= d <= pwm_period config) dt) /\
  (forall item, In item (fan_speed config) ->
     exists d, duty_cycle_of (pwm_period config) (speed item) = Ok d /\
               (speed item = 0 -> d = 0) /\
               (speed item = 100 -> d = pwm_period config)).
Proof.
  intros Hp Hs. split; [now apply duty_cycles_bounds|].
  intros item Hin. rewrite Forall_forall in Hs.
  destruct (duty_cycle_of_bounds _ _ Hp (Hs item Hin)) as (d & Hd & _ & H0 & H1).
  eauto.
Qed.

Lemma duty_cycles_within_period_witness :
  0 <= pwm_period falling_config < 2 ^ 47 /\
  Forall (fun item => 0 <= speed item <= 100) (fan_speed falling_config) /\
  exists dt, _duty_cycles falling_config = Ok dt /\
             length dt = length (fan_speed falling_config) /\
             Forall (fun d => 0 <= d <= pwm_period falling_config) dt.
Proof.
  assert (Hp : 0 <= pwm_period falling_config < 2 ^ 47) by (cbn; lia).
  assert (Hs : Forall (fun item => 0 <= speed item <= 100)
                 (fan_speed falling_config))
    by (repeat constructor; cbn; lia).
  split; [exact Hp|]. split; [exact Hs|].
  exact (proj1 (duty_cycles_within_period falling_config Hp Hs)).
Defined.

Lemma monitor_writes_within_period (config : Config)
  (trace : list Readings) (w w' : World) :
  0 <= pwm_period config < 2 ^ 47 ->
  Forall (fun item => 0 <= speed item <= 100) (fan_speed config) ->
  monitor config trace w = Ok w' ->
  exists written,
    duty_cycle_writes w' = written ++ duty_cycle_writes w /\
    length written = length trace /\
    Forall (fun duty => 0 <= duty <= pwm_period config) written.
Proof.
  intros Hp Hs.
  destruct (duty_cycles_bounds config Hp Hs) as (dt & Hdt & _ & Hall).
  rewrite Forall_forall in Hall.
  revert w. induction trace as [|r trace IH]; intros w Hrun; cbn [monitor] in Hrun.
  - injection Hrun as <-. exists []. repeat split. constructor.
  - destruct (monitor_iteration config r w) as [w1|] eqn:E1;
      cbn [bind] in Hrun; [|discriminate].
    destruct (monitor_iteration_inv config r w w1 E1)
      as (dt' & duty & Hdt' & Hduty & ->).
    assert (dt' = dt) as -> by congruence.
    apply scan_value in Hduty.
    destruct (IH _ Hrun) as (written & Hlog & Hlen & Hw).
    exists (written ++ [duty]). split; [|split].
    + rewrite Hlog. cbn [set_pwmchip_duty_cycle duty_cycle_writes].
      now rewrite <- app_assoc.
    + rewrite length_app. cbn [length]. lia.
    + apply Forall_app. split; [exact Hw|]. constructor; [|constructor].
      destruct Hduty as [->|Hin]; [lia | now apply Hall].
Qed.

(** X3.  With such a configuration every value that a run of the loop
    writes to the duty-cycle attribute lies between 0 and the period. *)
Theorem monitor_never_exceeds_period (config : Config)
  (trace : list Readings) (w w' : World) :
  0 <= pwm_period config < 2 ^ 47 ->
  Forall (fun item => 0 <= speed item <= 100) (fan_speed config) ->
  monitor config trace w = Ok w' ->
  exists written,
    duty_cycle_writes w' = written ++ duty_cycle_writes w /\
    length written = length trace /\
    Forall (fun duty => 0 <= duty <= pwm_period config) written.
Proof. apply monitor_writes_within_period. Qed.

Lemma monitor_never_exceeds_period_witness :
  let w := mkWorld (mkPwm 40000 40000 true normal) [] in
  let w' := mkWorld (mkPwm 0 40000 true normal) [0; 20000; 20000] in
  let trace := [steady 60 30; steady 60 30; steady 30 30] in
  monitor falling_config trace w = Ok w' /\
  exists written,
    duty_cycle_writes w' = written ++ duty_cycle_writes w /\
    length written = length trace /\
    Forall (fun duty => 0 <= duty <= pwm_period falling_config) written.
Proof.
  intros w w' trace. split; [reflexivity|].
  apply (monitor_never_exceeds_period falling_config trace w w').
  - cbn; lia.
  - repeat constructor; cbn; lia.
  - reflexivity.
Defined.

(** ** The fan curve under changing inputs *)

Lemma triggered_mono (cpu_temp disk_temp previous_duty : Z)
  (cpu_temp' disk_temp' previous_duty' : Z) (s : FanStep) (d : Z) :
  cpu_temp <= cpu_temp' -> disk_temp <= disk_temp' ->
  previous_duty <= previous_duty' ->
  triggered cpu_temp disk_temp previous_duty s d ->
  triggered cpu_temp' disk_temp' previous_duty' s d.
Proof.
  unfold triggered. intros Hc Hk Hp.
  destruct (Z.geb_spec previous_duty d); destruct (Z.geb_spec previous_duty' d);
    lia.
Qed.

Lemma selected_earlier (cpu_temp disk_temp previous_duty : Z)
  (cpu_temp' disk_temp' previous_duty' : Z)
  (steps : list FanStep) (duty_table : list Z) (i : nat) :
  length duty_table = length steps ->
  cpu_temp <= cpu_temp' -> disk_temp <= disk_temp' ->
  previous_duty <= previous_duty' ->
  selected cpu_temp disk_temp previous_duty steps duty_table = Ok (Some i) ->
  exists j,
    selected cpu_temp' disk_temp' previous_duty' steps duty_table = Ok (Some j) /\
    (j <= i)%nat.
Proof.
  intros Hlen Hc Hk Hp Hsel.
  destruct (selected_spec cpu_temp disk_temp previous_duty steps duty_table Hlen)
    as [[i' [Hi' [(s & d & Hs & Hd & Ht) _]]]|[Hnone _]]; [|congruence].
  assert (i' = i) as -> by congruence.
  pose proof (triggered_mono _ _ _ _ _ _ s d Hc Hk Hp Ht) as Ht'.
  destruct (selected_spec cpu_temp' disk_temp' previous_duty' steps duty_table Hlen)
    as [[j [Hj [_ Hbefore]]]|[_ Hnone]].
  - exists j. split; [exact Hj|].
    destruct (Nat.le_gt_cases j i) as [H|H]; [exact H|].
    destruct (Hbefore i s d H Hs Hd Ht').
  - destruct (Hnone i s d Hs Hd Ht').
Qed.

(** X4.  Raising a temperature or the previous duty never unselects a
    step and never moves the selected index further down the table. *)
Theorem warmer_selects_no_later (cpu_temp disk_temp previous_duty : Z)
  (cpu_temp' disk_temp' previous_duty' : Z)
  (steps : list FanStep) (duty_table : list Z) (i : nat) :
  length duty_table = length steps ->
  cpu_temp <= cpu_temp' -> disk_temp <= disk_temp' ->
  previous_duty <= previous_duty' ->
  selected cpu_temp disk_temp previous_duty steps duty_table = Ok (Some i) ->
  exists j,
    selected cpu_temp' disk_temp' previous_duty' steps duty_table = Ok (Some j) /\
    (j <= i)%nat.
Proof. apply selected_earlier. Qed.

Lemma warmer_selects_no_later_witness :
  length [40000; 20000; 0] = length falling_steps /\
  selected 45 30 20000 falling_steps [40000; 20000; 0] = Ok (Some 2%nat) /\
  exists j,
    selected 54 30 20000 falling_steps [40000; 20000; 0] = Ok (Some j) /\
    (j <= 2)%nat.
Proof.
  split; [reflexivity|]. split; [reflexivity|].
  apply (warmer_selects_no_later 45 30 20000 54 30 20000 falling_steps
           [40000; 20000; 0] 2 eq_refl); try lia.
  reflexivity.
Defined.

Lemma descending_nth (l : list Z) (j i : nat) (x y : Z) :
  descending l -> (j <= i)%nat ->
  nth_error l j = Some x -> nth_error l i = Some y -> y <= x.
Proof.
  revert j i. induction l as [|a l IH]; intros j i Hl Hji Hx Hy.
  - destruct j; discriminate.
  - destruct Hl as [Hall Hl]. destruct j as [|j], i as [|i]; cbn in Hx, Hy.
    + assert (x = y) by congruence. lia.
    + injection Hx as <-. rewrite Forall_forall in Hall.
      apply Hall. eapply nth_error_In; eauto.
    + lia.
    + apply (IH j i); auto. lia.
Qed.

Lemma strictly_descending_nth (l : list Z) (j i : nat) (x y : Z) :
  strictly_descending l -> (j < i)%nat ->
  nth_error l j = Some x -> nth_error l i = Some y -> y < x.
Proof.
  revert j i. induction l as [|a l IH]; intros j i Hl Hji Hx Hy.
  - destruct j; discriminate.
  - destruct Hl as [Hall Hl]. destruct j as [|j], i as [|i]; cbn in Hx, Hy.
    + lia.
    + injection Hx as <-. rewrite Forall_forall in Hall.
      apply Hall. eapply nth_error_In; eauto.
    + lia.
    + apply (IH j i); auto. lia.
Qed.

(** X5.  In a table whose duties descend and are not negative, warmer
    readings at the same previous duty never give a smaller duty. *)
Theorem warmer_is_no_slower (cpu_temp disk_temp cpu_temp' disk_temp' : Z)
  (previous_duty : Z) (steps : list FanStep) (duty_table : list Z) :
  length duty_table = length steps ->
  descending duty_table -> Forall (fun d => 0 <= d) duty_table ->
  cpu_temp <= cpu_temp' -> disk_temp <= disk_temp' ->
  exists r r',
    decide cpu_temp disk_temp previous_duty steps duty_table = Ok r /\
    decide cpu_temp' disk_temp' previous_duty steps duty_table = Ok r' /\
    r <= r'.
Proof.
  intros Hlen Hdesc Hpos Hc Hk. rewrite Forall_forall in Hpos.
  destruct (decide_cases cpu_temp disk_temp previous_duty steps duty_table Hlen)
    as [(i & d & d0 & _ & Hsel & Hd & Hd0 & ->)|(_ & _ & ->)];
  destruct (decide_cases cpu_temp' disk_temp' previous_duty steps duty_table Hlen)
    as [(j & d' & d0' & _ & Hsel' & Hd' & Hd0' & ->)|(_ & Hsel' & ->)].
  - do 2 eexists. repeat split.
    destruct (selected_earlier _ _ _ _ _ _ _ _ _ Hlen Hc Hk (Z.le_refl _) Hsel)
      as (j' & Hj' & Hle).
    assert (j' = j) as -> by congruence.
    assert (d0' = d0) as -> by congruence.
    destruct (previous_duty =? 0); [lia|].
    exact (descending_nth _ _ _ _ _ Hdesc Hle Hd' Hd).
  - destruct (selected_earlier _ _ _ _ _ _ _ _ _ Hlen Hc Hk (Z.le_refl _) Hsel)
      as (j' & Hj' & _). congruence.
  - do 2 eexists. repeat split.
    destruct (previous_duty =? 0); apply Hpos; eapply nth_error_In; eauto.
  - do 2 eexists. repeat split. lia.
Qed.

Lemma warmer_is_no_slower_witness :
  length [40000; 20000; 0] = length falling_steps /\
  exists r r',
    decide 45 30 20000 falling_steps [40000; 20000; 0] = Ok r /\
    decide 72 30 20000 falling_steps [40000; 20000; 0] = Ok r' /\
    r <= r'.
Proof.
  split; [reflexivity|].
  apply (warmer_is_no_slower 45 30 72 30 20000 falling_steps
           [40000; 20000; 0] eq_refl).
  - cbn. repeat (split || constructor); lia.
  - repeat constructor; lia.
  - lia.
  - lia.
Defined.

(** X6.  In a table whose duties descend strictly, a nonzero decision
    taken from a running fan is returned again when it is fed back as the
    previous duty at unchanged temperatures. *)
Theorem running_decision_is_stable (cpu_temp disk_temp previous_duty r : Z)
  (steps : list FanStep) (duty_table : list Z) :
  length duty_table = length steps ->
  strictly_descending duty_table ->
  previous_duty <> 0 -> r <> 0 ->
  decide cpu_temp disk_temp previous_duty steps duty_table = Ok r ->
  decide cpu_temp disk_temp r steps duty_table = Ok r.
Proof.
  intros Hlen Hdesc Hp Hr Hdec.
  destruct (decide_cases cpu_temp disk_temp previous_duty steps duty_table Hlen)
    as [(i & d & d0 & Hfirst & _ & Hd & _ & Hdec')|(_ & _ & Hdec')];
    [|congruence].
  apply Z.eqb_neq in Hp. rewrite Hp in Hdec'.
  assert (d = r) as -> by congruence.
  assert (Hfirst' : first_triggered cpu_temp disk_temp r steps duty_table i).
  { destruct Hfirst as [(s & d & Hs & Hd' & Ht) Hbefore]. split.
    - exists s, d. repeat split; try assumption.
      assert (d = r) as -> by congruence.
      unfold triggered in *. destruct (Z.geb_spec r r); [|lia].
      destruct (previous_duty >=? r); lia.
    - intros j s' d' Hj Hs' Hd'' Ht'.
      apply (Hbefore j s' d' Hj Hs' Hd'').
      pose proof (strictly_descending_nth _ _ _ _ _ Hdesc Hj Hd'' Hd).
      unfold triggered in *. destruct (Z.geb_spec r d'); [lia|].
      destruct (previous_duty >=? d'); lia. }
  rewrite decide_by_selected, (selected_first _ _ _ _ _ _ Hlen Hfirst').
  cbn [bind duty_of_index]. apply Z.eqb_neq in Hr. rewrite Hr.
  now apply getitem_ok.
Qed.

Lemma running_decision_is_stable_witness :
  length [40000; 20000; 0] = length falling_steps /\
  strictly_descending [40000; 20000; 0] /\
  decide 60 30 40000 falling_steps [40000; 20000; 0] = Ok 20000 /\
  decide 60 30 20000 falling_steps [40000; 20000; 0] = Ok 20000.
Proof.
  assert (Hd : strictly_descending [40000; 20000; 0])
    by (cbn; repeat (split || constructor); lia).
  split; [reflexivity|]. split; [exact Hd|]. split; [reflexivity|].
  exact (running_decision_is_stable 60 30 40000 20000 falling_steps
           [40000; 20000; 0] eq_refl Hd ltac:(discriminate) ltac:(discriminate)
           eq_refl).
Defined.

(** X7.  When the step selected at the running duty [d0] of the first
    entry has the duty 0, the decision stops the fan, and from the stopped
    fan the same readings restart it at [d0]: the two decisions alternate. *)
Theorem zero_step_stops_and_restarts (cpu_temp disk_temp d0 : Z)
  (steps : list FanStep) (duty_table : list Z) (i : nat) :
  length duty_table = length steps ->
  nth_error duty_table 0 = Some d0 -> d0 <> 0 ->
  first_triggered cpu_temp disk_temp d0 steps duty_table i ->
  nth_error duty_table i = Some 0 ->
  decide cpu_temp disk_temp d0 steps duty_table = Ok 0 /\
  decide cpu_temp disk_temp 0 steps duty_table = Ok d0.
Proof.
  intros Hlen Hd0 Hne Hfirst Hi. split.
  - rewrite decide_by_selected, (selected_first _ _ _ _ _ _ Hlen Hfirst).
    cbn [bind duty_of_index]. apply Z.eqb_neq in Hne. rewrite Hne.
    now apply getitem_ok.
  - destruct Hfirst as [(s & d & Hs & Hd & Ht) _].
    assert (d = 0) as -> by congruence.
    destruct (decide_cases cpu_temp disk_temp 0 steps duty_table Hlen)
      as [(j & dj & d0' & _ & _ & _ & Hd0' & ->)|(Hnone & _)].
    + cbn. congruence.
    + exfalso. apply (Hnone i s 0 Hs Hd).
      unfold triggered in *. cbn. destruct (d0 >=? 0); lia.
Qed.

Lemma zero_step_stops_and_restarts_witness :
  first_triggered 45 30 40000 falling_steps [40000; 20000; 0] 2 /\
  decide 45 30 40000 falling_steps [40000; 20000; 0] = Ok 0 /\
  decide 45 30 0 falling_steps [40000; 20000; 0] = Ok 40000.
Proof.
  assert (Hf : first_triggered 45 30 40000 falling_steps [40000; 20000; 0] 2).
  { split.
    - exists (mkFanStep 40 35 0), 0. repeat split. left. vm_compute. reflexivity.
    - intros j s d Hj Hs Hd. unfold triggered.
      destruct j as [|[|j]]; [| |lia]; injection Hs as <-; injection Hd as <-;
        cbn; lia. }
  split; [exact Hf|].
  exact (zero_step_stops_and_restarts 45 30 40000 falling_steps
           [40000; 20000; 0] 2 eq_refl eq_refl ltac:(discriminate) Hf eq_refl).
Defined.

(** ** Runs of the loop *)

Lemma monitor_frame (config : Config)
  (trace : list Readings) (w w' : World) :
  monitor config trace w = Ok w' ->
  period (pwm w') = period (pwm w) /\
  enable (pwm w') = enable (pwm w) /\
  polarity (pwm w') = polarity (pwm w).
Proof.
  revert w. induction trace as [|r trace IH]; intros w Hrun;
    cbn [monitor] in Hrun.
  - injection Hrun as <-. auto.
  - destruct (monitor_iteration config r w) as [w1|] eqn:E1;
      cbn [bind] in Hrun; [|discriminate].
    destruct (monitor_iteration_inv config r w w1 E1) as (dt & duty & _ & _ & ->).
    destruct (IH _ Hrun) as (Hp & He & Hpol).
    rewrite Hp, He, Hpol. auto.
Qed.

(** X8.  A run of the loop leaves the period, the enable flag and the
    polarity of the channel as they were. *)
Theorem monitor_keeps_other_attributes (config : Config)
  (trace : list Readings) (w w' : World) :
  monitor config trace w = Ok w' ->
  period (pwm w') = period (pwm w) /\
  enable (pwm w') = enable (pwm w) /\
  polarity (pwm w') = polarity (pwm w).
Proof. apply monitor_frame. Qed.

Lemma monitor_keeps_other_attributes_witness :
  let w := mkWorld (mkPwm 40000 40000 true normal) [] in
  let w' := mkWorld (mkPwm 0 40000 true normal) [0; 20000; 20000] in
  monitor falling_config [steady 60 30; steady 60 30; steady 30 30] w = Ok w' /\
  period (pwm w') = period (pwm w) /\
  enable (pwm w') = enable (pwm w) /\
  polarity (pwm w') = polarity (pwm w).
Proof.
  intros w w'. split; [reflexivity|].
  exact (monitor_keeps_other_attributes falling_config
           [steady 60 30; steady 60 30; steady 30 30] w w' eq_refl).
Defined.



(** ** The temperature providers, continued *)

Lemma max_reading_spec (t : Z) (rest : list Z) :
  In (max_reading (t :: rest)) (t :: rest) /\
  Forall (fun x => x <= max_reading (t :: rest)) (t :: rest).
Proof.
  destruct rest as [|b rest]; cbn [max_reading].
  - split; [now left | constructor; [lia | constructor]].
  - destruct (py_max_fold (b :: rest) t) as (Hin & Hle & Hall).
    split; [exact Hin | constructor; [exact Hle | exact Hall]].
Qed.

Lemma max_reading_permutation (l l' : list Z) :
  Permutation l l' -> max_reading l = max_reading l'.
Proof.
  intros Hperm.
  destruct l as [|t rest].
  - apply Permutation_nil in Hperm. now subst.
  - destruct l' as [|t' rest'].
    + apply Permutation_sym, Permutation_nil in Hperm. discriminate.
    + destruct (max_reading_spec t rest) as [Hin Hall].
      destruct (max_reading_spec t' rest') as [Hin' Hall'].
      rewrite Forall_forall in Hall, Hall'.
      pose proof (Hall' _ (Permutation_in _ Hperm Hin)).
      pose proof (Hall _ (Permutation_in _ (Permutation_sym Hperm) Hin')).
      lia.
Qed.

Lemma traverse_permutation {A B : Type} (f : A -> result B) (l l' : list A)
  (r : list B) :
  Permutation l l' -> traverse f l = Ok r ->
  exists r', traverse f l' = Ok r' /\ Permutation r r'.
Proof.
  intros Hperm. revert r.
  induction Hperm as [|x l l' _ IH|x y l|l l' l'' _ IH1 _ IH2]; intros r Hr.
  - exists r. split; [exact Hr | apply Permutation_refl].
  - cbn [traverse] in *. destruct (f x) as [b|]; cbn [bind] in *; [|discriminate].
    destruct (traverse f l) as [bs|]; cbn [bind] in Hr; [|discriminate].
    injection Hr as <-. destruct (IH bs eq_refl) as (bs' & -> & Hp).
    cbn [bind]. eexists. split; [reflexivity|]. now constructor.
  - cbn [traverse] in *.
    destruct (f y) as [by_|]; cbn [bind] in *; [|discriminate].
    destruct (f x) as [bx|]; cbn [bind] in *; [|discriminate].
    destruct (traverse f l) as [bs|]; cbn [bind] in *; [|discriminate].
    injection Hr as <-. eexists. split; [reflexivity|]. constructor.
  - destruct (IH1 r Hr) as (r1 & Hr1 & Hp1).
    destruct (IH2 r1 Hr1) as (r2 & Hr2 & Hp2).
    exists r2. split; [exact Hr2|]. eapply Permutation_trans; eauto.
Qed.

(** X10.  The answer of a provider does not depend on the order in which
    its sources are listed: thermal zones in any order, and disks in any
    order, give the same temperature. *)
Theorem provider_ignores_source_order :
  (forall l l', Permutation l l' -> max_reading l = max_reading l') /\
  (forall zones zones' t,
     Permutation zones zones' ->
     Bin._cpu_temperature zones = Ok t -> Bin._cpu_temperature zones' = Ok t) /\
  (forall hddtemp config config' t,
     Permutation (disk_devices config) (disk_devices config') ->
     Bin._disk_temperature hddtemp config = Ok t ->
     Bin._disk_temperature hddtemp config' = Ok t) /\
  (forall smartctl config config' t,
     Permutation (disk_devices config) (disk_devices config') ->
     Sbin._disk_temperature smartctl config = Ok t ->
     Sbin._disk_temperature smartctl config' = Ok t).
Proof.
  split; [exact max_reading_permutation|].
  assert (H : forall (A : Type) (f : A -> result Z) (l l' : list A) (t : Z),
            Permutation l l' ->
            (r <- traverse f l ;; Ok (max_reading r)) = Ok t ->
            (r <- traverse f l' ;; Ok (max_reading r)) = Ok t).
  { intros A f l l' t Hperm Ht.
    destruct (traverse f l) as [r|] eqn:E; cbn [bind] in Ht; [|discriminate].
    destruct (traverse_permutation f l l' r Hperm E) as (r' & -> & Hp).
    cbn [bind]. rewrite <- (max_reading_permutation r r' Hp). exact Ht. }
  repeat split.
  - intros zones zones' t. apply H.
  - intros hddtemp config config' t. apply H.
  - intros smartctl config config' t. apply H.
Qed.

Lemma provider_ignores_source_order_witness :
  Permutation [Some 41000; Some 47999] [Some 47999; Some 41000] /\
  Bin._cpu_temperature [Some 41000; Some 47999] = Ok 47 /\
  Bin._cpu_temperature [Some 47999; Some 41000] = Ok 47.
Proof.
  assert (Hp : Permutation [Some 41000; Some 47999] [Some 47999; Some 41000])
    by constructor.
  split; [exact Hp|]. split; [reflexivity|].
  exact (proj1 (proj2 provider_ignores_source_order) _ _ 47 Hp eq_refl).
Defined.



(** ** Start-up and the loop after it *)



Lemma init_inv (config : Config) (host : Host) (w w0 : World) :
  init config host w = Ok w0 ->
  lsmod_grep host = Some EmptyString /\ control_files host = true /\
  exists duty_cycles d0,
    _duty_cycles config = Ok duty_cycles /\
    nth_error duty_cycles 0 = Some d0 /\
    pwm w0 = mkPwm d0 (pwm_period config) true normal /\
    duty_cycle_writes w0 = d0 :: duty_cycle_writes w.
Proof.
  unfold init, _check_pwm_fan_kernel_module. intros H.
  destruct (lsmod_grep host) as [[|c s]|]; cbn [bind] in H; try discriminate.
  destruct (_duty_cycles config) as [duty_cycles|]; cbn [bind] in H;
    [|discriminate].
  destruct (getitem duty_cycles 0) as [d0|] eqn:E; cbn [bind] in H;
    [|discriminate].
  destruct (control_files host); [|discriminate].
  injection H as <-. repeat split.
  exists duty_cycles, d0. repeat split. now apply getitem_ok.
Qed.

(** X13.  A listed [pwm_fan] module or a missing command ends the
    constructor with exit status 1 before anything else is looked at.
    When the constructor returns, the module is not listed, the control
    files are there, and the channel is enabled with normal polarity, the
    configured period and the first duty of the table, written once. *)
Theorem init_outcome (config : Config) (host : Host) (w : World) :
  (lsmod_grep host <> Some EmptyString ->
   init config host w = Raise (SystemExit 1)) /\
  (forall w0,
     init config host w = Ok w0 ->
     lsmod_grep host = Some EmptyString /\ control_files host = true /\
     exists duty_cycles d0,
       _duty_cycles config = Ok duty_cycles /\
       nth_error duty_cycles 0 = Some d0 /\
       pwm w0 = mkPwm d0 (pwm_period config) true normal /\
       duty_cycle_writes w0 = d0 :: duty_cycle_writes w).
Proof.
  split; [|apply init_inv].
  intros Hmod. unfold init, _check_pwm_fan_kernel_module.
  destruct (lsmod_grep host) as [[|c s]|]; [congruence | reflexivity..].
Qed.

Lemma init_outcome_witness :
  let w := mkWorld (mkPwm 0 0 false inversed) [] in
  let w0 := mkWorld (mkPwm 40000 40000 true normal) [40000] in
  init falling_config (mkHost (Some "pwm_fan 16384 0"%string) true) w
  = Raise (SystemExit 1) /\
  init falling_config clean_host w = Ok w0 /\
  exists duty_cycles d0,
    _duty_cycles falling_config = Ok duty_cycles /\
    nth_error duty_cycles 0 = Some d0 /\
    pwm w0 = mkPwm d0 (pwm_period falling_config) true normal /\
    duty_cycle_writes w0 = d0 :: duty_cycle_writes w.
Proof.
  intros w w0. split.
  - apply (proj1 (init_outcome falling_config
                    (mkHost (Some "pwm_fan 16384 0"%string) true) w)).
    discriminate.
  - split; [reflexivity|].
    exact (proj2 (proj2 (proj2 (init_outcome falling_config clean_host w)
                           w0 eq_refl))).
Defined.

Section ScanTotal.

Variables cpu_temperature disk_temperature : nat -> Z.
Variable pwmchip_duty_cycle : Z.
Variables duty_cycles cpu_temperatures disk_temperatures : list Z.
Variable debug : Z -> result unit.

Hypothesis cpu_length : length cpu_temperatures = length duty_cycles.
Hypothesis disk_length : length disk_temperatures = length duty_cycles.
Hypothesis debug_ok : forall duty, In duty duty_cycles -> debug duty = Ok tt.


End ScanTotal.







(** ** The attributes as text: writing and reading back *)

Module SysfsFacts.
Import Sysfs.

Lemma digit_cases (d : Z) :
  0 <= d <= 9 ->
  d = 0 \/ d = 1 \/ d = 2 \/ d = 3 \/ d = 4 \/
  d = 5 \/ d = 6 \/ d = 7 \/ d = 8 \/ d = 9.
Proof. lia. Qed.

Lemma digit_of_char (d : Z) :
  0 <= d <= 9 ->
  digit_of (digit_char d) = Some d /\ is_space (digit_char d) = false.
Proof.
  intros H. destruct (digit_cases d H) as [->|[->|[->|[->|[->|[->|[->|[->|[->| ->]]]]]]]]];
    split; reflexivity.
Qed.

Lemma sign_of_digit (d : Z) (rest : string) :
  0 <= d <= 9 ->
  match lstrip (String (digit_char d) rest) with
  | String "+"%char s' => (false, s')
  | String "-"%char s' => (true, s')
  | s' => (false, s')
  end = (false, String (digit_char d) rest).
Proof.
  intros H. destruct (digit_cases d H) as [->|[->|[->|[->|[->|[->|[->|[->|[->| ->]]]]]]]]];
    reflexivity.
Qed.

Lemma length_append (s1 s2 : string) :
  String.length (s1 ++ s2) = (String.length s1 + String.length s2)%nat.
Proof.
  induction s1 as [|c s1 IH]; cbn [append String.length]; [reflexivity|].
  now rewrite IH.
Qed.

Lemma decimal_app (fuel : nat) (n : Z) (tail s : string) :
  (decimal fuel n tail ++ s = decimal fuel n (tail ++ s))%string.
Proof.
  revert n tail. induction fuel as [|fuel IH]; intros n tail; cbn [decimal].
  - reflexivity.
  - destruct (n <? 10); [reflexivity|]. now rewrite IH.
Qed.

Lemma decimal_length (fuel : nat) (n : Z) (tail : string) :
  (String.length (decimal fuel n tail) <= fuel + String.length tail)%nat.
Proof.
  revert n tail. induction fuel as [|fuel IH]; intros n tail; cbn [decimal].
  - lia.
  - destruct (n <? 10); cbn [String.length]; [lia|].
    specialize (IH (n / 10) (String (digit_char (n mod 10)) tail)).
    cbn [String.length] in IH. lia.
Qed.

(** Reading the digits back gives the number and counts its digits. *)
Lemma parse_decimal (fuel : nat) (n : Z) (tail : string) :
  0 <= n < 2 ^ Z.of_nat fuel -> (0 < fuel)%nat ->
  exists k d rest,
    0 <= d <= 9 /\
    decimal fuel n tail = String (digit_char d) rest /\
    String.length (decimal fuel n tail) = (k + String.length tail)%nat /\
    forall count after_digit,
      parse_digits (decimal fuel n tail) 0 count after_digit
      = parse_digits tail n (count + k) true.
Proof.
  revert n tail. induction fuel as [|fuel IH]; intros n tail Hn Hfuel; [lia|].
  cbn [decimal].
  pose proof (Z.mod_pos_bound n 10 ltac:(lia)) as Hmod.
  destruct (digit_of_char (n mod 10) ltac:(lia)) as [Hdig _].
  destruct (Z.ltb_spec n 10) as [Hsmall|Hbig].
  - exists 1%nat, (n mod 10), tail. repeat split; try lia.
    intros count after_digit. cbn [parse_digits]. rewrite Hdig.
    rewrite Z.mod_small by lia. f_equal; lia.
  - assert (Hdiv : 1 <= n / 10) by (apply Z.div_le_lower_bound; lia).
    assert (Hhalf : n / 10 < 2 ^ Z.of_nat fuel).
    { rewrite Nat2Z.inj_succ, Z.pow_succ_r in Hn by lia.
      apply Z.div_lt_upper_bound; lia. }
    assert (Hf : (0 < fuel)%nat).
    { destruct fuel; [cbn in Hhalf; lia | lia]. }
    destruct (IH (n / 10) (String (digit_char (n mod 10)) tail)
                ltac:(lia) Hf) as (k & d & rest & Hd & Hhead & Hlen & Hparse).
    exists (S k), d, rest. repeat split; try lia; try assumption.
    + rewrite Hlen. cbn [String.length]. lia.
    + intros count after_digit. rewrite Hparse. cbn [parse_digits].
      rewrite Hdig. f_equal; [|lia].
      pose proof (Z.div_mod n 10 ltac:(lia)). lia.
Qed.

Lemma digits_of_fuel (n : Z) :
  0 <= n -> 0 <= n < 2 ^ Z.of_nat (S (Z.to_nat (Z.log2 n))).
Proof.
  intros Hn. split; [exact Hn|].
  destruct (Z.eq_dec n 0) as [->|Hne]; [reflexivity|].
  rewrite Nat2Z.inj_succ, Z2Nat.id by apply Z.log2_nonneg.
  apply Z.log2_spec. lia.
Qed.

Section WithLimit.

Variable max_str_digits : nat.

(** Whenever a value can be formatted, the line written for it is read
    back as the value. *)
Lemma int_of_line (value : Z) (line : string) :
  line_of_int max_str_digits value = Some line ->
  py_int max_str_digits line = Some value.
Proof.
  unfold line_of_int, py_str. set (n := Z.abs value).
  destruct (parse_decimal (S (Z.to_nat (Z.log2 n))) n newline
              (digits_of_fuel n ltac:(lia)) ltac:(lia))
    as (k & d & rest & Hd & Hhead & Hlen & Hparse).
  assert (Hk : String.length (digits_of n) = k).
  { pose proof (decimal_app (S (Z.to_nat (Z.log2 n))) n EmptyString newline) as E.
    cbn [append] in E. fold (digits_of n) in E.
    rewrite <- E in Hlen. rewrite length_append in Hlen.
    lia. }
  rewrite Hk.
  destruct (too_long max_str_digits k) eqn:Hlimit; [discriminate|].
  intros H. cbn [option_map] in H. injection H as <-.
  assert (Hbody : (digits_of n ++ newline)%string = String (digit_char d) rest).
  { unfold digits_of. rewrite decimal_app. exact Hhead. }
  assert (Hread : parse_digits (digits_of n ++ newline)%string 0 0 false
                  = Some (n, k)).
  { unfold digits_of. rewrite decimal_app. cbn [append]. rewrite Hparse.
    reflexivity. }
  unfold py_int.
  destruct (Z.ltb_spec value 0) as [Hneg|Hpos].
  - cbn [append lstrip]. change (is_space "-"%char) with false. cbv iota.
    rewrite Hread, Hlimit. f_equal. lia.
  - rewrite Hbody in *. rewrite (sign_of_digit d rest Hd).
    rewrite Hread, Hlimit. f_equal. lia.
Qed.

Lemma line_of_small_int (value : Z) :
  max_str_digits = 0%nat \/ (640 <= max_str_digits)%nat ->
  Z.abs value < 2 ^ 64 ->
  exists line, line_of_int max_str_digits value = Some line.
Proof.
  intros Hmax Hv. unfold line_of_int, py_str.
  assert (Hlen : (String.length (digits_of (Z.abs value)) <= 64)%nat).
  { unfold digits_of.
    pose proof (decimal_length (S (Z.to_nat (Z.log2 (Z.abs value))))
                  (Z.abs value) EmptyString) as H.
    cbn [String.length] in H.
    assert (Z.log2 (Z.abs value) < 64).
    { destruct (Z.eq_dec (Z.abs value) 0) as [->|Hne]; [reflexivity|].
      apply Z.log2_lt_pow2; lia. }
    pose proof (Z.log2_nonneg (Z.abs value)). lia. }
  assert (Hlimit : too_long max_str_digits
                     (String.length (digits_of (Z.abs value))) = false).
  { unfold too_long. destruct Hmax as [->|Hmax]; [reflexivity|].
    apply andb_false_intro2. apply Nat.ltb_ge. lia. }
  rewrite Hlimit. eexists. reflexivity.
Qed.

End WithLimit.

End SysfsFacts.

(** X16.  A duty cycle or a period that the setter could format is read
    back by the getter as the same integer, and the other attributes read
    as before; for values below [2 ^ 64] in absolute value the setter
    formats the value whatever the interpreter's limit on conversions. *)
Theorem written_integer_reads_back (max_str_digits : nat) (value : Z)
  (f : Sysfs.Files) :
  (forall f',
     Sysfs.set_pwmchip_duty_cycle max_str_digits value f = Some f' ->
     Sysfs._pwmchip_duty_cycle max_str_digits f' = Ok value /\
     Sysfs.period_file f' = Sysfs.period_file f /\
     Sysfs.polarity_file f' = Sysfs.polarity_file f /\
     Sysfs.enable_file f' = Sysfs.enable_file f) /\
  (forall f',
     Sysfs.set_pwmchip_period max_str_digits value f = Some f' ->
     Sysfs._pwmchip_period max_str_digits f' = Ok value /\
     Sysfs.duty_cycle_file f' = Sysfs.duty_cycle_file f /\
     Sysfs.polarity_file f' = Sysfs.polarity_file f /\
     Sysfs.enable_file f' = Sysfs.enable_file f) /\
  ((max_str_digits = 0 \/ 640 <= max_str_digits)%nat ->
   Z.abs value < 2 ^ 64 ->
   (exists f', Sysfs.set_pwmchip_duty_cycle max_str_digits value f = Some f') /\
   (exists f', Sysfs.set_pwmchip_period max_str_digits value f = Some f')).
Proof.
  repeat split.
  1-8: unfold Sysfs.set_pwmchip_duty_cycle, Sysfs.set_pwmchip_period in H;
       destruct (Sysfs.line_of_int max_str_digits value) as [line|] eqn:E;
       [|discriminate]; injection H as <-; try reflexivity.
  - unfold Sysfs._pwmchip_duty_cycle. cbn [Sysfs.duty_cycle_file].
    now rewrite (SysfsFacts.int_of_line _ _ _ E).
  - unfold Sysfs._pwmchip_period. cbn [Sysfs.period_file].
    now rewrite (SysfsFacts.int_of_line _ _ _ E).
  - destruct (SysfsFacts.line_of_small_int max_str_digits value H H0)
      as [line E].
    unfold Sysfs.set_pwmchip_duty_cycle. rewrite E. eexists. reflexivity.
  - destruct (SysfsFacts.line_of_small_int max_str_digits value H H0)
      as [line E].
    unfold Sysfs.set_pwmchip_period. rewrite E. eexists. reflexivity.
Qed.

Lemma written_integer_reads_back_witness :
  let f := Sysfs.mkFiles "0" "0" "normal" "0" in
  exists f',
    Sysfs.set_pwmchip_duty_cycle 4300 20000 f = Some f' /\
    Sysfs._pwmchip_duty_cycle 4300 f' = Ok 20000.
Proof.
  intros f.
  destruct (proj1 (proj2 (proj2 (written_integer_reads_back 4300 20000 f))
                     ltac:(right; lia) ltac:(cbn; lia))) as [f' Hset].
  exists f'. split; [exact Hset|].
  exact (proj1 (proj1 (written_integer_reads_back 4300 20000 f) f' Hset)).
Defined.

(** X17.  The enable setter always succeeds, and the getter reads back
    the flag that was written. *)
Theorem written_enable_reads_back (max_str_digits : nat) (value : bool)
  (f : Sysfs.Files) :
  exists f',
    Sysfs.set_pwmchip_enable max_str_digits value f = Some f' /\
    Sysfs._pwmchip_enable max_str_digits f' = Ok value /\
    Sysfs.duty_cycle_file f' = Sysfs.duty_cycle_file f /\
    Sysfs.period_file f' = Sysfs.period_file f /\
    Sysfs.polarity_file f' = Sysfs.polarity_file f.
Proof.
  unfold Sysfs.set_pwmchip_enable.
  assert (Hline : exists line,
            Sysfs.line_of_int max_str_digits (if value then 1 else 0)
            = Some line).
  { unfold Sysfs.line_of_int, Sysfs.py_str.
    assert (Hlimit : Sysfs.too_long max_str_digits 1 = false)
      by (unfold Sysfs.too_long; destruct max_str_digits; reflexivity).
    destruct value; cbn; rewrite Hlimit; eexists; reflexivity. }
  destruct Hline as [line E]. rewrite E. cbn [option_map].
  eexists. split; [reflexivity|]. repeat split.
  unfold Sysfs._pwmchip_enable. cbn [Sysfs.enable_file].
  rewrite (SysfsFacts.int_of_line _ _ _ E). cbn [or_exit bind].
  destruct value; reflexivity.
Qed.




(** ** A first step that stops the fan *)

Lemma scan_from_stopped cpu_temperature disk_temperature duty_cycles
  cpu_temperatures disk_temperatures debug (indices : list nat) (v : Z) :
  scan cpu_temperature disk_temperature 0 duty_cycles cpu_temperatures
    disk_temperatures debug indices = Ok v ->
  v = 0 \/ nth_error duty_cycles 0 = Some v.
Proof.
  induction indices as [|i rest IH]; cbn [scan]; intros H.
  - left. congruence.
  - destruct (step_matches _ _ _ _ _ _ i) as [[|]|e]; cbn [bind] in H;
      [| auto | discriminate].
    right. cbn in H.
    destruct (getitem duty_cycles 0) as [duty|] eqn:E; cbn [bind] in H;
      [|discriminate].
    destruct (debug duty); cbn [bind] in H; [|discriminate].
    injection H as <-. now apply getitem_ok.
Qed.

(** X19.  When the first duty of the table is 0, a stopped fan stays
    stopped: whatever the sensors answer, every iteration writes 0. *)
Theorem zero_first_duty_never_starts (config : Config) (dt : list Z)
  (trace : list Readings) (w w' : World) :
  _duty_cycles config = Ok (0 :: dt) ->
  get_pwmchip_duty_cycle w = 0 ->
  monitor config trace w = Ok w' ->
  duty_cycle_writes w' = repeat 0 (length trace) ++ duty_cycle_writes w /\
  get_pwmchip_duty_cycle w' = 0.
Proof.
  intros Hdt. revert w.
  induction trace as [|r trace IH]; intros w Hw Hrun; cbn [monitor] in Hrun.
  - injection Hrun as <-. split; [reflexivity | exact Hw].
  - destruct (monitor_iteration config r w) as [w1|] eqn:E1;
      cbn [bind] in Hrun; [|discriminate].
    destruct (monitor_iteration_inv config r w w1 E1)
      as (dt' & duty & Hdt' & Hduty & ->).
    assert (dt' = 0 :: dt) as -> by congruence.
    rewrite Hw in Hduty. apply scan_from_stopped in Hduty.
    assert (duty = 0) as -> by (destruct Hduty as [H|H]; cbn in H; congruence).
    destruct (IH (set_pwmchip_duty_cycle 0 w) eq_refl Hrun) as [Hlog Hlast].
    split; [|exact Hlast].
    rewrite Hlog. cbn [set_pwmchip_duty_cycle duty_cycle_writes length repeat].
    rewrite repeat_cons, <- app_assoc. reflexivity.
Qed.

Lemma zero_first_duty_never_starts_witness :
  let w := mkWorld (mkPwm 0 40000 true normal) [] in
  let w' := mkWorld (mkPwm 0 40000 true normal) [0; 0] in
  _duty_cycles rising_config = Ok [0; 20000; 40000] /\
  monitor rising_config [steady 60 30; steady 90 60] w = Ok w' /\
  duty_cycle_writes w' = repeat 0 2 ++ duty_cycle_writes w /\
  get_pwmchip_duty_cycle w' = 0.
Proof.
  intros w w'. split; [reflexivity|]. split; [reflexivity|].
  exact (zero_first_duty_never_starts rising_config [20000; 40000]
           [steady 60 30; steady 90 60] w w' eq_refl eq_refl eq_refl).
Defined.

Example stop_and_go_at_45_degrees :
  monitor falling_config
    [steady 45 30; steady 45 30; steady 45 30; steady 45 30]
    (mkWorld (mkPwm 40000 40000 true normal) [])
  = Ok (mkWorld (mkPwm 40000 40000 true normal) [40000; 0; 40000; 0]).
Proof. reflexivity. Qed.

(** ** Speeds and duties *)

Lemma descending_map (f : Z -> Z) (l : list Z) :
  (forall x y, x <= y -> f x <= f y) ->
  descending l -> descending (map f l).
Proof.
  intros Hf. induction l as [|x l IH]; cbn [map descending]; [auto|].
  intros [Hall Hl]. split; [|now apply IH].
  rewrite Forall_forall in *. intros y Hy.
  apply in_map_iff in Hy as (z & <- & Hz). apply Hf. now apply Hall.
Qed.

Lemma ascending_map (f : Z -> Z) (l : list Z) :
  (forall x y, x <= y -> f x <= f y) ->
  ascending l -> ascending (map f l).
Proof.
  intros Hf. induction l as [|x l IH]; cbn [map ascending]; [auto|].
  intros [Hall Hl]. split; [|now apply IH].
  rewrite Forall_forall in *. intros y Hy.
  apply in_map_iff in Hy as (z & <- & Hz). apply Hf. now apply Hall.
Qed.

(** X20.  With a period in [0, 2 ^ 47) and speeds between 0 and 100, the
    duties follow the order of the speeds: steps listed with descending
    speeds give a descending duty table, and ascending speeds an ascending
    one. *)
Theorem duties_follow_speeds (config : Config) :
  0 <= pwm_period config < 2 ^ 47 ->
  Forall (fun item => 0 <= speed item <= 100) (fan_speed config) ->
  exists dt,
    _duty_cycles config = Ok dt /\
    (descending (map speed (fan_speed config)) -> descending dt) /\
    (ascending (map speed (fan_speed config)) -> ascending dt).
Proof.
  intros Hp Hs.
  pose (g := fun s => Z.quot (pwm_period config * s) 100).
  assert (Hg : forall x y, x <= y -> g x <= g y).
  { intros x y Hxy. unfold g. apply Z.quot_le_mono; [lia | nia]. }
  assert (Hdt : _duty_cycles config = Ok (map g (map speed (fan_speed config)))).
  { rewrite map_map. apply traverse_map. intros item Hin.
    rewrite Forall_forall in Hs. specialize (Hs item Hin).
    apply duty_cycle_of_truncates. nia. }
  eexists. split; [exact Hdt|]. split; intros H.
  - now apply descending_map.
  - now apply ascending_map.
Qed.

Lemma duties_follow_speeds_witness :
  0 <= pwm_period falling_config < 2 ^ 47 /\
  Forall (fun item => 0 <= speed item <= 100) (fan_speed falling_config) /\
  descending (map speed (fan_speed falling_config)) /\
  exists dt, _duty_cycles falling_config = Ok dt /\ descending dt.
Proof.
  assert (Hp : 0 <= pwm_period falling_config < 2 ^ 47) by (cbn; lia).
  assert (Hs : Forall (fun item => 0 <= speed item <= 100)
                 (fan_speed falling_config))
    by (repeat constructor; cbn; lia).
  assert (Hd : descending (map speed (fan_speed falling_config)))
    by (cbn; repeat (split || constructor); lia).
  split; [exact Hp|]. split; [exact Hs|]. split; [exact Hd|].
  destruct (duties_follow_speeds falling_config Hp Hs) as (dt & Hdt & Hdesc & _).
  exists dt. split; [exact Hdt | exact (Hdesc Hd)].
Defined.
